(** * Auto-Glyph: a shallow embedding of [autoglyph.py]

    The development follows the Python module top to bottom: the glyph
    lexicon, the response validator [validate_glyphstream], the glyph
    assigner [llm_assign_glyphs], the note writer [write_obsidian_file],
    the audit log [log_assignment] and the per-note loop of
    [process_vault].

    Python values are modelled as follows.
    - A [str] is the list of its Unicode code points ([pystr]); [len],
      slicing, [strip], [split] and [in] work on code points, as they do
      in Python 3.
    - A [dict] is an association list in insertion order with unique keys.
    - Values read from YAML or returned by the model are the variant
      [value].
    - Effects (files, audit log, model calls, console, clock) are threaded
      through a state-and-exception monad [M] over a [World]. *)

From Stdlib Require Import ZArith NArith List Bool Lia.
From stdpp Require Import base option list gmap strings pretty.

Open Scope N_scope.
Open Scope nat_scope.

(* ====================================================================== *)
(** * Python strings                                                       *)
(* ====================================================================== *)

Abbreviation pystr := (list N).

(** An ASCII literal of the source, as code points. *)
Fixpoint str (s : string) : pystr :=
  match s with
  | EmptyString => []
  | String a s' => Ascii.N_of_ascii a :: str s'
  end.

(** [str.isspace] for one code point: the characters Python 3 treats as
    whitespace (bidirectional class WS, B or S, or category Zs). *)
Definition py_isspace (c : N) : bool :=
  ((0x09 <=? c) && (c <=? 0x0D) ||
   (0x1C <=? c) && (c <=? 0x20) ||
   (c =? 0x85) || (c =? 0xA0) || (c =? 0x1680) ||
   (0x2000 <=? c) && (c <=? 0x200A) ||
   (c =? 0x2028) || (c =? 0x2029) || (c =? 0x202F) ||
   (c =? 0x205F) || (c =? 0x3000))%N.

Fixpoint py_lstrip (s : pystr) : pystr :=
  match s with
  | [] => []
  | c :: s' => if py_isspace c then py_lstrip s' else s
  end.

Definition py_rstrip (s : pystr) : pystr := rev (py_lstrip (rev s)).

(** [s.strip()] *)
Definition py_strip (s : pystr) : pystr := py_rstrip (py_lstrip s).

(** [sep.join(parts)] *)
Fixpoint py_join (sep : pystr) (parts : list pystr) : pystr :=
  match parts with
  | [] => []
  | [p] => p
  | p :: rest => p ++ sep ++ py_join sep rest
  end.

(** [s.split(",")]: split on a one-character separator; the result always
    has at least one field, and empty fields are kept. *)
Fixpoint py_split_on (sep : N) (s : pystr) : list pystr :=
  match s with
  | [] => [[]]
  | c :: s' =>
      if (c =? sep)%N then [] :: py_split_on sep s'
      else match py_split_on sep s' with
           | [] => [[c]]
           | field :: fields => (c :: field) :: fields
           end
  end.

Definition comma : N := 0x2C%N.

(** [needle in hay] for two strings: substring search. *)
Fixpoint py_startswith (hay needle : pystr) : bool :=
  match needle, hay with
  | [], _ => true
  | _ :: _, [] => false
  | n :: needle', h :: hay' => (n =? h)%N && py_startswith hay' needle'
  end.

Fixpoint py_str_contains (hay needle : pystr) : bool :=
  py_startswith hay needle ||
  match hay with
  | [] => false
  | _ :: hay' => py_str_contains hay' needle
  end.

(* ====================================================================== *)
(** * Python dictionaries (insertion ordered)                              *)
(* ====================================================================== *)

Section Dict.
Context {V : Type}.

Definition dict := list (pystr * V).

(** [d.get(k)] *)
Fixpoint dict_get (k : pystr) (d : list (pystr * V)) : option V :=
  match d with
  | [] => None
  | (k', v) :: d' => if bool_decide (k = k') then Some v else dict_get k d'
  end.

(** [k in d] *)
Definition dict_contains (k : pystr) (d : list (pystr * V)) : bool :=
  match dict_get k d with Some _ => true | None => false end.

(** [d[k] = v]: an existing key keeps its position, a new key goes last. *)
Fixpoint dict_set (k : pystr) (v : V) (d : list (pystr * V)) : list (pystr * V) :=
  match d with
  | [] => [(k, v)]
  | (k', v') :: d' =>
      if bool_decide (k = k') then (k, v) :: d' else (k', v') :: dict_set k v d'
  end.

(** [d.update(other)] *)
Definition dict_update (d other : list (pystr * V)) : list (pystr * V) :=
  fold_left (fun acc kv => dict_set (fst kv) (snd kv) acc) other d.
End Dict.

(* ====================================================================== *)
(** * GLYPH LEXICON                                                        *)
(* ====================================================================== *)

Record GlyphData := {
  name : pystr;
  meanings : list pystr;
  archetypes : list pystr;
  requires_permission : bool
}.

(** The seven keys of the source's dictionary literal, decoded as the
    module declares itself ([coding: utf-8]). *)
Definition glyph_paradox : pystr := [0xE2; 0x178]%N.
Definition glyph_dual_witness : pystr := [0xE2; 0x161; 0xAF]%N.
Definition glyph_recursion : pystr := [0xE2; 0x2C6; 0xB7]%N.
Definition glyph_eternal : pystr := [0xE2; 0x2C6; 0x17E]%N.
Definition glyph_breath : pystr := [0xF0; 0x178; 0x153]%N.
Definition glyph_temporal_fold : pystr := [0xE2; 0xA7; 0x2013]%N.
Definition glyph_threshold : pystr := [0xE2; 0x201A]%N.

Definition GLYPH_LEXICON : list (pystr * GlyphData) :=
  [ (glyph_paradox,
     {| name := str "Paradox Glyph";
        meanings := map str ["paradox"; "complex systems"; "collapse";
                             "fragmentation"; "ambiguous truth"]%string;
        archetypes := map str ["The Trickster"; "The Puzzle"; "The Labyrinth"]%string;
        requires_permission := false |});
    (glyph_dual_witness,
     {| name := str "Dual Witness Glyph";
        meanings := map str ["witnessing"; "mirroring"; "trauma"; "grief";
                             "duality"; "entanglement"]%string;
        archetypes := map str ["The Twins"; "The Mirror"; "The Echo"]%string;
        requires_permission := false |});
    (glyph_recursion,
     {| name := str "Recursion Glyph";
        meanings := map str ["loops"; "recursion"; "patterns"; "iteration";
                             "self-reference"]%string;
        archetypes := map str ["The Ouroboros"; "The Fractal"; "The Algorithm"]%string;
        requires_permission := false |});
    (glyph_eternal,
     {| name := str "Eternal Glyph";
        meanings := map str ["memory"; "eternity"; "cycles"; "immortality";
                             "permanence"]%string;
        archetypes := map str ["The Ancient"; "The Monument"; "The Timeless"]%string;
        requires_permission := false |});
    (glyph_breath,
     {| name := str "Breath Glyph";
        meanings := map str ["breath"; "spirit"; "transformation"; "air";
                             "alchemy"]%string;
        archetypes := map str ["The Wind"; "The Phoenix"; "The Alchemist"]%string;
        requires_permission := false |});
    (glyph_temporal_fold,
     {| name := str "Temporal Fold";
        meanings := map str ["time dilation"; "deja vu"; "temporal distortion"]%string;
        archetypes := map str ["The Timekeeper"; "The Prophet"]%string;
        requires_permission := true |});
    (glyph_threshold,
     {| name := str "Threshold Marker";
        meanings := map str ["initiation"; "portals"; "boundary crossing"]%string;
        archetypes := map str ["The Gatekeeper"; "The Wanderer"]%string;
        requires_permission := true |}) ].

(* ====================================================================== *)
(** * validate_glyphstream                                                 *)
(* ====================================================================== *)

(** [[g.strip() for g in glyphs if g.strip() in GLYPH_LEXICON]] *)
Fixpoint valid_glyphs (glyphs : list pystr) : list pystr :=
  match glyphs with
  | [] => []
  | g :: rest =>
      if dict_contains (py_strip g) GLYPH_LEXICON
      then py_strip g :: valid_glyphs rest
      else valid_glyphs rest
  end.

(** [{g for g, data in GLYPH_LEXICON.items() if data["requires_permission"]}];
    the set is only ever asked for membership. *)
Definition permission_glyphs : list pystr :=
  map fst (filter (fun kv => requires_permission (snd kv)) GLYPH_LEXICON).

Definition is_permission_glyph (g : pystr) : bool :=
  bool_decide (g ∈ permission_glyphs).

(** [3 if is_personal else 7] *)
Definition max_glyphs (is_personal : bool) : nat :=
  if is_personal then 3 else 7.

Definition validate_glyphstream (glyphs : list pystr) (is_personal : bool)
  : list pystr :=
  let valid := valid_glyphs glyphs in
  if negb is_personal && negb (existsb is_permission_glyph valid)
  then []
  else take (max_glyphs is_personal) valid.

(* ====================================================================== *)
(** * Dynamic values and exceptions                                        *)
(* ====================================================================== *)

(** What a YAML header or a model response can hold.  Dictionary keys are
    strings; a float is kept as its IEEE-754 bit pattern. *)
#[warnings="-register-all"]
Inductive value :=
| VNone
| VBool (b : bool)
| VInt (n : Z)
| VFloat (bits : N)
| VStr (s : pystr)
| VList (items : list value)
| VDict (items : list (pystr * value)).

(** A raised exception: [type(e).__name__] and [str(e)].  Every exception
    of the model derives from Python's [Exception], the class the
    handlers of the module catch. *)
Record exn := Exn { exn_type : pystr; exn_msg : pystr }.

Inductive result (A : Type) :=
| Ok (a : A)
| Raise (e : exn).
Arguments Ok {A} a.
Arguments Raise {A} e.

#[global] Instance result_ret : MRet result := λ A a, Ok a.
#[global] Instance result_bind : MBind result := λ A B f r,
  match r with Ok a => f a | Raise e => Raise e end.

Definition type_name (v : value) : pystr :=
  match v with
  | VNone => str "NoneType"
  | VBool _ => str "bool"
  | VInt _ => str "int"
  | VFloat _ => str "float"
  | VStr _ => str "str"
  | VList _ => str "list"
  | VDict _ => str "dict"
  end.

Definition TypeError (msg : pystr) : exn := Exn (str "TypeError") msg.
Definition KeyError (msg : pystr) : exn := Exn (str "KeyError") msg.
Definition IndexError (msg : pystr) : exn := Exn (str "IndexError") msg.
Definition AttributeError (msg : pystr) : exn := Exn (str "AttributeError") msg.
Definition FileNotFoundError (msg : pystr) : exn := Exn (str "FileNotFoundError") msg.

Definition quoted (s : pystr) : pystr := str "'" ++ s ++ str "'".

(** [needle in container] with a string on the left: substring search in a
    string, element equality in a list, key lookup in a dictionary, and
    [TypeError] for a value that is not a container. *)
Definition py_in (needle : pystr) (container : value) : result bool :=
  match container with
  | VStr s => Ok (py_str_contains s needle)
  | VList items =>
      Ok (existsb (λ v, match v with
                        | VStr s => bool_decide (s = needle)
                        | _ => false
                        end) items)
  | VDict items => Ok (dict_contains needle items)
  | _ => Raise (TypeError (str "argument of type " ++ quoted (type_name container)
                           ++ str " is not iterable"))
  end.

(** [v[key]] with a string key *)
Definition py_getitem (v : value) (key : pystr) : result value :=
  match v with
  | VDict items =>
      match dict_get key items with
      | Some x => Ok x
      | None => Raise (KeyError (quoted key))
      end
  | VList _ => Raise (TypeError (str "list indices must be integers or slices, not str"))
  | VStr _ => Raise (TypeError (str "string indices must be integers, not 'str'"))
  | _ => Raise (TypeError (quoted (type_name v) ++ str " object is not subscriptable"))
  end.

(** [v[0]] *)
Definition py_getitem_0 (v : value) : result value :=
  match v with
  | VList (x :: _) => Ok x
  | VList [] => Raise (IndexError (str "list index out of range"))
  | VStr (c :: _) => Ok (VStr [c])
  | VStr [] => Raise (IndexError (str "string index out of range"))
  | VDict _ => Raise (KeyError (str "0"))
  | _ => Raise (TypeError (quoted (type_name v) ++ str " object is not subscriptable"))
  end.

(** [v.strip()] *)
Definition py_strip_method (v : value) : result pystr :=
  match v with
  | VStr s => Ok (py_strip s)
  | _ => Raise (AttributeError (quoted (type_name v) ++
                                str " object has no attribute 'strip'"))
  end.

(* ====================================================================== *)
(** * The world the module runs in                                         *)
(* ====================================================================== *)

(** One chat message and one completion request.  Every request of the
    module carries the same decoding constants ([temperature=0.3],
    [max_tokens=20]); a request is identified by its messages. *)
Record Message := { role : pystr; content : pystr }.
Abbreviation Request := (list Message).

(** The [Llama] handle: the reply of [create_chat_completion], given the
    requests made before and the present one. *)
Definition Llama := list Request → Request → result value.

(** The five action strings the module logs. *)
Inductive Action := SKIPPED | UPDATED | WRITE_FAILED | NO_MATCH | ERROR.

#[global] Instance Action_eq_dec : EqDecision Action.
Proof. solve_decision. Defined.

(** One line of [glyph_assignments.jsonl]. *)
Record LogEntry := {
  timestamp : pystr;
  file : pystr;
  action : Action;
  glyphs : list pystr;
  run_id : pystr;
  error : option pystr
}.

(** A parsed note ([frontmatter.Post]). *)
Record Post := {
  metadata : list (pystr * value);
  post_content : pystr
}.

Record World := {
  disk : gmap pystr pystr;          (* path |-> text, for every file but LOG_FILE *)
  log_file : option (list LogEntry);(* LOG_FILE; [None] when absent *)
  llm_requests : list Request;      (* completion calls made so far *)
  console : list pystr;             (* lines printed *)
  clock_reads : nat;                (* calls of [datetime.now] so far *)
  sleeps : nat;                     (* calls of [time.sleep(0.3)] so far *)
  processed_files : nat             (* the counter local to [process_vault] *)
}.

(** The collaborators outside the module. *)
Record Env := {
  VAULT_PATH : pystr;
  (** what [VAULT_PATH.rglob("*.md")] yields, in its order *)
  vault_files : list pystr;
  (** [Llama(model_path=MODEL_PATH, ...)] *)
  load_model : result Llama;
  (** [frontmatter.loads] on the text of a note *)
  frontmatter_loads : pystr → result Post;
  (** [yaml.safe_load(yaml.safe_dump(value, allow_unicode=True))] *)
  yaml_roundtrip : value → result value;
  (** [yaml.dump(metadata, f, ...)]: the text it emits to the stream and
      the exception it ends with, if any *)
  yaml_dump : list (pystr * value) → pystr * option exn;
  (** [open(path, 'w')] raising for a path *)
  open_fault : pystr → option exn;
  (** a device that stores [n] characters of a file and then raises *)
  device_limit : pystr → option (nat * exn);
  (** [datetime.datetime.now()] at the n-th reading, as [isoformat()] and
      as [strftime("%Y%m%d-%H%M%S")] *)
  now_isoformat : nat → pystr;
  now_strftime : nat → pystr;
  (** the text of [f"{duration:.2f}"] in the final report *)
  duration_text : pystr;
  (** [LOG_FILE.write_text("")] raising, as it does when the vault
      directory is missing or cannot be written to *)
  log_create_fault : option exn
}.

(** State and exceptions: a computation runs in a world and either
    returns or raises, leaving a world behind in both cases. *)
Definition M (A : Type) : Type := World → result A * World.

#[global] Instance M_ret : MRet M := λ A a w, (Ok a, w).
#[global] Instance M_bind : MBind M := λ A B f c w,
  match c w with
  | (Ok a, w') => f a w'
  | (Raise e, w') => (Raise e, w')
  end.

(** [raise e] *)
Definition throw {A} (e : exn) : M A := λ w, (Raise e, w).

(** A pure step that may raise. *)
Definition lift {A} (r : result A) : M A := λ w, (r, w).

(** [try: body / except Exception as e: handler(e)] *)
Definition try_except {A} (body : M A) (handler : exn → M A) : M A := λ w,
  match body w with
  | (Ok a, w') => (Ok a, w')
  | (Raise e, w') => handler e w'
  end.

Definition modify (f : World → World) : M unit := λ w, (Ok tt, f w).
Definition gets {A} (f : World → A) : M A := λ w, (Ok (f w), w).

Definition set_disk (f : gmap pystr pystr → gmap pystr pystr) (w : World) : World :=
  {| disk := f (disk w); log_file := log_file w; llm_requests := llm_requests w;
     console := console w; clock_reads := clock_reads w; sleeps := sleeps w;
     processed_files := processed_files w |}.
Definition set_log_file (f : option (list LogEntry) → option (list LogEntry))
  (w : World) : World :=
  {| disk := disk w; log_file := f (log_file w); llm_requests := llm_requests w;
     console := console w; clock_reads := clock_reads w; sleeps := sleeps w;
     processed_files := processed_files w |}.
Definition set_llm_requests (f : list Request → list Request) (w : World) : World :=
  {| disk := disk w; log_file := log_file w; llm_requests := f (llm_requests w);
     console := console w; clock_reads := clock_reads w; sleeps := sleeps w;
     processed_files := processed_files w |}.
Definition set_console (f : list pystr → list pystr) (w : World) : World :=
  {| disk := disk w; log_file := log_file w; llm_requests := llm_requests w;
     console := f (console w); clock_reads := clock_reads w; sleeps := sleeps w;
     processed_files := processed_files w |}.
Definition set_clock_reads (f : nat → nat) (w : World) : World :=
  {| disk := disk w; log_file := log_file w; llm_requests := llm_requests w;
     console := console w; clock_reads := f (clock_reads w); sleeps := sleeps w;
     processed_files := processed_files w |}.
Definition set_sleeps (f : nat → nat) (w : World) : World :=
  {| disk := disk w; log_file := log_file w; llm_requests := llm_requests w;
     console := console w; clock_reads := clock_reads w; sleeps := f (sleeps w);
     processed_files := processed_files w |}.
Definition set_processed_files (f : nat → nat) (w : World) : World :=
  {| disk := disk w; log_file := log_file w; llm_requests := llm_requests w;
     console := console w; clock_reads := clock_reads w; sleeps := sleeps w;
     processed_files := f (processed_files w) |}.

(* ====================================================================== *)
(** * Primitive effects                                                    *)
(* ====================================================================== *)

Definition nl : pystr := [10%N].

(** [print(line)] *)
Definition print (line : pystr) : M unit :=
  modify (set_console (λ out, out ++ [line])).

(** [time.sleep(0.3)] *)
Definition sleep : M unit := modify (set_sleeps S).

(** [Path.name]: the last component of a path. *)
Definition path_name (p : pystr) : pystr :=
  List.last (py_split_on 0x2F%N p) [].

Section Autoglyph.
Variable env : Env.

(** [datetime.datetime.now()]: one reading of the clock. *)
Definition now : M nat := λ w, (Ok (clock_reads w), set_clock_reads S w).

(** [llm.create_chat_completion(messages=..., temperature=0.3, max_tokens=20)] *)
Definition create_chat_completion (llm : Llama) (messages : Request) : M value :=
  λ w, (llm (llm_requests w) messages,
        set_llm_requests (λ past, past ++ [messages]) w).

(** [open(file_path, 'w', encoding='utf-8')]: raises, or leaves the file
    empty (created when it was absent). *)
Definition open_w (file_path : pystr) : M unit :=
  match open_fault env file_path with
  | Some e => throw e
  | None => modify (set_disk (λ d, <[file_path := []]> d))
  end.

(** [f.write(text)] on the file opened at [file_path]: the text is
    appended; a device with a limit stores what fits and raises. *)
Definition f_write (file_path text : pystr) : M unit := λ w,
  let written := default [] (disk w !! file_path) in
  match device_limit env file_path with
  | Some (limit, e) =>
      if limit <? length written + length text
      then (Raise e,
            set_disk (λ d, <[file_path := written ++ take (limit - length written) text]> d) w)
      else (Ok tt, set_disk (λ d, <[file_path := written ++ text]> d) w)
  | None => (Ok tt, set_disk (λ d, <[file_path := written ++ text]> d) w)
  end.

(** [yaml.dump(safe_metadata, f, allow_unicode=True, sort_keys=False,
    default_flow_style=False, width=float("inf"))] *)
Definition yaml_dump_to (file_path : pystr) (safe_metadata : list (pystr * value))
  : M unit :=
  let '(emitted, failure) := yaml_dump env safe_metadata in
  f_write file_path emitted;;
  match failure with
  | Some e => throw e
  | None => mret tt
  end.

(** [frontmatter.load(md_file)] *)
Definition frontmatter_load (md_file : pystr) : M Post := λ w,
  match disk w !! md_file with
  | Some text => (frontmatter_loads env text, w)
  | None => (Raise (FileNotFoundError (str "[Errno 2] No such file or directory: "
                                       ++ quoted md_file)), w)
  end.

(* ==================================================================== *)
(** ** CORE FUNCTIONS                                                    *)
(* ==================================================================== *)

Definition initialize_llm : M Llama := lift (load_model env).

(** [with open(LOG_FILE, "a", encoding="utf-8") as log: log.write(...)]:
    one line is appended; the file is created when absent.  Appending to
    the log and printing are taken not to raise. *)
Definition log_assignment (filename : pystr) (glyphs : list pystr)
  (action : Action) (error : option pystr) : M unit :=
  t1 ← now;
  t2 ← now;
  let entry := {| timestamp := now_isoformat env t1;
                  file := filename;
                  action := action;
                  glyphs := glyphs;
                  run_id := now_strftime env t2;
                  error := error |} in
  modify (set_log_file (λ lines, Some (default [] lines ++ [entry]))).

(** [isinstance(value, (str, int, float, bool, list))] *)
Definition is_plain (v : value) : bool :=
  match v with
  | VStr _ | VInt _ | VFloat _ | VBool _ | VList _ => true
  | VNone | VDict _ => false
  end.

(** The loop that fills [safe_metadata]. *)
Fixpoint prepare_metadata (items safe_metadata : list (pystr * value))
  : result (list (pystr * value)) :=
  match items with
  | [] => Ok safe_metadata
  | (key, v) :: rest =>
      if is_plain v then prepare_metadata rest (dict_set key v safe_metadata)
      else
        v' ← yaml_roundtrip env v;
        prepare_metadata rest (dict_set key v' safe_metadata)
  end.

Definition write_obsidian_file (file_path : pystr)
  (metadata : list (pystr * value)) (content : pystr) : M bool :=
  try_except
    (safe_metadata ← lift (prepare_metadata metadata []);
     open_w file_path;;
     f_write file_path (str "---" ++ nl);;
     yaml_dump_to file_path safe_metadata;;
     f_write file_path (str "---" ++ nl ++ nl);;
     f_write file_path (py_strip content);;
     mret true)
    (λ e,
       print (str "File write error for " ++ file_path ++ str ": " ++ exn_msg e);;
       mret false).

Definition glyph_description (entry : pystr * GlyphData) : pystr :=
  let '(glyph, data) := entry in
  let desc := glyph ++ str " (" ++ name data ++ str "): "
              ++ py_join (str ", ") (meanings data) in
  if requires_permission data then desc ++ str " [REQUIRES PERMISSION]" else desc.

Definition rules : pystr :=
  str "Rules:" ++ nl ++
  str "- Max 3 glyphs for personal streams" ++ nl ++
  str "- Max 7 glyphs for shared experiences" ++ nl ++
  str "- Permission glyphs (" ++ glyph_temporal_fold ++ str ", " ++ glyph_threshold
  ++ str ") required for shared streams".

Definition generate_glyph_prompt (is_personal_stream : bool) : pystr :=
  let glyph_descriptions := map glyph_description GLYPH_LEXICON in
  str "Analyze the text and select the most representative glyphs:" ++ nl ++
  str "    " ++ nl ++
  str "Available Glyphs:" ++ nl ++
  py_join (str " | ") glyph_descriptions ++ nl ++ nl ++
  rules ++ nl ++ nl ++
  str "Return ONLY the chosen glyphs as comma-separated characters.".

(** [response['choices'][0]['message']['content'].strip()] *)
Definition response_text (response : value) : result pystr :=
  choices ← py_getitem response (str "choices");
  first ← py_getitem_0 choices;
  message ← py_getitem first (str "message");
  text ← py_getitem message (str "content");
  py_strip_method text.

(** The [messages=[...]] argument of the completion call. *)
Definition completion_messages (text : pystr) (is_personal_stream : bool)
  : Request :=
  [ {| role := str "system";
       content := generate_glyph_prompt is_personal_stream |};
    {| role := str "user";
       content := str "Text to analyze:" ++ nl ++ nl ++ take 3000 text |} ].

Definition llm_assign_glyphs (llm : Llama) (text : pystr)
  (is_personal_stream : bool) : M (list pystr) :=
  if length text <? 50 then mret []
  else
    try_except
      (response ← create_chat_completion llm
                    (completion_messages text is_personal_stream);
       raw_output ← lift (response_text response);
       mret (validate_glyphstream (py_split_on comma raw_output) is_personal_stream))
      (λ e,
         print (str "LLM processing error: " ++ exn_msg e);;
         mret []).

(* ==================================================================== *)
(** ** MAIN PROCESSING LOOP                                              *)
(* ==================================================================== *)

(** [GLYPH_LEXICON[glyph]] *)
Definition lexicon_lookup (glyph : pystr) : result GlyphData :=
  match dict_get glyph GLYPH_LEXICON with
  | Some data => Ok data
  | None => Raise (KeyError (quoted glyph))
  end.

(** The dictionary comprehension that builds [glyph_metadata]. *)
Fixpoint build_glyph_metadata (glyphstream : list pystr)
  (glyph_metadata : list (pystr * value)) : result (list (pystr * value)) :=
  match glyphstream with
  | [] => Ok glyph_metadata
  | glyph :: rest =>
      data ← lexicon_lookup glyph;
      build_glyph_metadata rest
        (dict_set glyph
           (VDict [ (str "name", VStr (name data));
                    (str "meanings", VList (map VStr (meanings data)));
                    (str "archetypes", VList (map VStr (archetypes data)));
                    (str "requires_permission", VBool (requires_permission data)) ])
           glyph_metadata)
  end.

(** [post.metadata.get("tags", [])] *)
Definition tags_of (post : Post) : value :=
  default (VList []) (dict_get (str "tags") (metadata post)).

(** [is_personal = "shared_experience" not in post.metadata.get("tags", [])] *)
Definition stream_is_personal (post : Post) : result bool :=
  tagged ← py_in (str "shared_experience") (tags_of post);
  Ok (negb tagged).

(** [post.metadata.update({...})]: the metadata of the note after the
    four keys have been merged in. *)
Definition enriched_metadata (post : Post) (is_personal : bool)
  (glyphstream : list pystr) (glyph_metadata : list (pystr * value))
  (last_processed : pystr) : list (pystr * value) :=
  dict_update (metadata post)
    [ (str "glyphstream", VList (map VStr glyphstream));
      (str "glyph_metadata", VDict glyph_metadata);
      (str "last_processed", VStr last_processed);
      (str "stream_type",
       VStr (if is_personal then str "personal" else str "shared")) ].

(** The [if glyphstream:] branch: enrich the metadata, write the note,
    log the outcome. *)
Definition update_note (md_file : pystr) (post : Post) (is_personal : bool)
  (glyphstream : list pystr) : M unit :=
  glyph_metadata ← lift (build_glyph_metadata glyphstream []);
  t ← now;
  let metadata' :=
    enriched_metadata post is_personal glyphstream glyph_metadata
      (now_isoformat env t) in
  written ← write_obsidian_file md_file metadata' (post_content post);
  if written : bool then
    log_assignment (path_name md_file) glyphstream UPDATED None;;
    print ([0x20; 0x20; 0xE2; 0x153; 0x2026]%N ++ str " Assigned: "
           ++ py_join (str ", ") glyphstream);;
    modify (set_processed_files S)
  else
    log_assignment (path_name md_file) glyphstream WRITE_FAILED None.

(** The body of the [try:] of the loop. *)
Definition process_note_body (llm : Llama) (md_file : pystr) : M unit :=
  post ← frontmatter_load md_file;
  if dict_contains (str "glyphstream") (metadata post) then
    (* continue *)
    log_assignment (path_name md_file) [] SKIPPED None
  else
    print (str "Analyzing: " ++ path_name md_file);;
    is_personal ← lift (stream_is_personal post);
    glyphstream ← llm_assign_glyphs llm (post_content post) is_personal;
    match glyphstream with
    | _ :: _ => update_note md_file post is_personal glyphstream
    | [] => log_assignment (path_name md_file) [] NO_MATCH None
    end;;
    sleep.

(** One iteration of [for md_file in VAULT_PATH.rglob("*.md")]. *)
Definition process_note (llm : Llama) (md_file : pystr) : M unit :=
  try_except
    (process_note_body llm md_file)
    (λ e,
       let error_msg := exn_type e ++ str ": " ++ exn_msg e in
       log_assignment (path_name md_file) [] ERROR (Some error_msg);;
       print ([0x20; 0x20; 0xE2; 0x152]%N ++ str " Failed: " ++ error_msg)).

Fixpoint for_each {A} (items : list A) (body : A → M unit) : M unit :=
  match items with
  | [] => mret tt
  | item :: rest => body item;; for_each rest body
  end.

Definition LOG_FILE : pystr :=
  VAULT_PATH env ++ str "/" ++ str "glyph_assignments.jsonl".

(** [if not LOG_FILE.exists(): LOG_FILE.write_text("")]: an absent log is
    created empty, unless creating it raises; a log that exists is left
    as it is.  The statement is outside every [try]. *)
Definition create_log_file : M unit := λ w,
  match log_file w with
  | Some _ => (Ok tt, w)
  | None =>
      match log_create_fault env with
      | Some e => (Raise e, w)
      | None => (Ok tt, set_log_file (λ _, Some []) w)
      end
  end.

Definition process_vault : M unit :=
  llm ← initialize_llm;
  create_log_file;;
  print (nl ++ [0xF0; 0x178; 0x201D; 0xAE]%N
         ++ str " Starting Auto-Glyph processing for vault: " ++ VAULT_PATH env);;
  modify (set_processed_files (λ _, 0));;
  for_each (vault_files env) (process_note llm);;
  print (nl ++ str "Processing complete:");;
  processed ← gets processed_files;
  print (str "- Files processed: " ++ str (pretty processed));;
  print (str "- Duration: " ++ duration_text env ++ str " seconds");;
  print (str "- Log file: " ++ LOG_FILE).
End Autoglyph.

(** The audit lines a world holds. *)
Definition log_lines (w : World) : list LogEntry := default [] (log_file w).

(* ====================================================================== *)
(** * Vocabulary of the statements                                         *)
(* ====================================================================== *)

(** What one call of [log_assignment] leaves behind: one more line, and
    nothing else that the module observes. *)
Record logs_one (w w' : World) (filename : pystr) (act : Action)
  (gl : list pystr) (err : option pystr) : Prop := {
  logged_line : ∃ e, log_file w' = Some (log_lines w ++ [e]) ∧ file e = filename ∧
                     action e = act ∧ glyphs e = gl ∧ error e = err;
  logged_disk : disk w' = disk w;
  logged_requests : llm_requests w' = llm_requests w;
  logged_processed : processed_files w' = processed_files w
}.

(** What a computation that only writes the note at [p] leaves alone. *)
Record touches_only (p : pystr) (w w' : World) : Prop := {
  touched_log : log_file w' = log_file w;
  touched_requests : llm_requests w' = llm_requests w;
  touched_processed : processed_files w' = processed_files w;
  touched_others : ∀ q, q ≠ p → disk w' !! q = disk w !! q
}.

(** A computation keeps a relation between the world it starts in and the
    world it leaves, whether it returns or raises. *)
Definition keeps {A} (R : World → World → Prop) (c : M A) : Prop :=
  ∀ w, R w (c w).2.

(** A computation that returns in every world: it never raises. *)
Definition returns {A} (c : M A) : Prop :=
  ∀ w, ∃ a, (c w).1 = Ok a.

(** What the glyph assigner leaves behind: the completion calls [calls]
    were made, and neither the notes nor the audit log were touched. *)
Record asks_model (calls : list Request) (w w' : World) : Prop := {
  asked_requests : llm_requests w' = llm_requests w ++ calls;
  asked_log : log_file w' = log_file w;
  asked_disk : disk w' = disk w;
  asked_processed : processed_files w' = processed_files w
}.

(** The text [write_obsidian_file] sets out to leave in a note: the
    header markers around the dumped metadata, a blank line, and the
    trimmed body. *)
Definition new_text (env : Env) (safe_metadata : list (pystr * value))
  (content : pystr) : pystr :=
  (str "---" ++ nl) ++ (yaml_dump env safe_metadata).1
  ++ (str "---" ++ nl ++ nl) ++ py_strip content.

(** A string of whitespace only. *)
Definition is_blank (s : pystr) : bool := forallb py_isspace s.

(** [padded] is [g] with whitespace added in front and behind. *)
Definition pads (g padded : pystr) : Prop :=
  ∃ front back, is_blank front = true ∧ is_blank back = true ∧
                padded = front ++ g ++ back.

(** The value stored under a glyph in [glyph_metadata]: the definition of
    the glyph, key by key as the lexicon has it. *)
Definition definition_of (data : GlyphData) : value :=
  VDict [ (str "name", VStr (name data));
          (str "meanings", VList (map VStr (meanings data)));
          (str "archetypes", VList (map VStr (archetypes data)));
          (str "requires_permission", VBool (requires_permission data)) ].

(** The four keys [process_vault] merges into the metadata of a note. *)
Definition assignment_keys : list pystr :=
  [str "glyphstream"; str "glyph_metadata"; str "last_processed"; str "stream_type"].

(** The actions logged for a note that went through the glyph assigner. *)
Definition classified (a : Action) : bool :=
  match a with
  | UPDATED | WRITE_FAILED | NO_MATCH => true
  | SKIPPED | ERROR => false
  end.

(** How many of the lines say UPDATED, and how many are for classified
    notes. *)
Definition updated_lines (es : list LogEntry) : nat :=
  length (filter (λ e, action e = UPDATED) es).
Definition classified_lines (es : list LogEntry) : nat :=
  length (filter (λ e, classified (action e) = true) es).

(** What the note writer leaves alone: everything but the console and the
    note at [p]. *)
Record writer_frame (p : pystr) (w w' : World) : Prop := {
  wf_log : log_file w' = log_file w;
  wf_requests : llm_requests w' = llm_requests w;
  wf_processed : processed_files w' = processed_files w;
  wf_sleeps : sleeps w' = sleeps w;
  wf_clock : clock_reads w' = clock_reads w;
  wf_others : ∀ q, q ≠ p → disk w' !! q = disk w !! q
}.

(** The line [log_assignment] writes in a world, and the world it leaves:
    the time stamp comes from one reading of the clock and the run id from
    the next. *)
Definition entry_at (env : Env) (w : World) (filename : pystr) (a : Action)
  (gl : list pystr) (err : option pystr) : LogEntry :=
  {| timestamp := now_isoformat env (clock_reads w);
     file := filename;
     action := a;
     glyphs := gl;
     run_id := now_strftime env (S (clock_reads w));
     error := err |}.

Definition with_line (e : LogEntry) (w : World) : World :=
  set_log_file (λ lines, Some (default [] lines ++ [e]))
    (set_clock_reads S (set_clock_reads S w)).

(** Values Python cannot search with [in]: [None], booleans and numbers. *)
Definition unsearchable (v : value) : bool :=
  match v with
  | VNone | VBool _ | VInt _ | VFloat _ => true
  | VStr _ | VList _ | VDict _ => false
  end.

(** The audit log is there for a run: it exists already, or creating it
    does not raise. *)
Definition log_available (env : Env) (w : World) : Prop :=
  is_Some (log_file w) ∨ log_create_fault env = None.

(** Trimming, said without [str.strip]: [t] is [s] without the whitespace
    at its two ends.  Whitespace only is taken away, in front and behind,
    and what is left neither starts nor ends with whitespace. *)
Definition trimmed_of (s t : pystr) : Prop :=
  ∃ front back,
    is_blank front = true ∧ is_blank back = true ∧ s = front ++ t ++ back ∧
    match t with [] => True | c :: _ => py_isspace c = false end ∧
    match rev t with [] => True | c :: _ => py_isspace c = false end.

(* ====================================================================== *)
(** * Concrete collaborators and notes                                     *)
(* ====================================================================== *)

Module Fixture.
Definition note_path : pystr := str "vault/daily/note.md".
Definition other_path : pystr := str "vault/ideas/later.md".

Definition long_body : pystr :=
  str "Loops inside loops: every memory of the garden folds back on itself.".
Definition short_body : pystr := str "Buy milk.".
Definition marked_text : pystr :=
  str "---" ++ nl ++ str "glyphstream:" ++ nl ++ str "- x" ++ nl ++ str "---"
  ++ nl ++ nl ++ long_body.

(** A well-formed completion whose text is [text]. *)
Definition reply (text : pystr) : value :=
  VDict [ (str "choices",
           VList [ VDict [ (str "message",
                            VDict [ (str "role", VStr (str "assistant"));
                                    (str "content", VStr text) ]) ] ]) ].

Definition llm_replying (text : pystr) : Llama := λ _ _, Ok (reply text).
Definition llm_timing_out : Llama :=
  λ _ _, Raise (Exn (str "TimeoutError") (str "model did not answer")).
Definition llm_malformed : Llama := λ _ _, Ok (VDict [(str "choices", VList [])]).

(** A note without a header parses to empty metadata and its stripped
    text; [marked_text] parses to its header and body. *)
Definition loads (text : pystr) : result Post :=
  if bool_decide (text = marked_text)
  then Ok {| metadata := [(str "glyphstream", VList [VStr (str "x")])];
             post_content := long_body |}
  else Ok {| metadata := []; post_content := py_strip text |}.

(** A dump that writes one line per key. *)
Definition dump_keys (md : list (pystr * value)) : pystr :=
  concat (map (λ kv : pystr * value, fst kv ++ str ":" ++ nl) md).

Definition env : Env :=
  {| VAULT_PATH := str "vault";
     vault_files := [note_path; other_path];
     load_model := Ok (llm_replying (glyph_recursion ++ str ", " ++ glyph_eternal));
     frontmatter_loads := loads;
     yaml_roundtrip := λ v, Ok v;
     yaml_dump := λ md, (dump_keys md, None);
     open_fault := λ _, None;
     device_limit := λ _, None;
     now_isoformat := λ n, str "2025-01-01T00:00:0" ++ str (pretty n);
     now_strftime := λ n, str "20250101-00000" ++ str (pretty n);
     duration_text := str "0.61";
     log_create_fault := None |}.

(** The same collaborators with a dump that raises after its first key. *)
Definition env_dump_raises : Env :=
  {| VAULT_PATH := VAULT_PATH env;
     vault_files := vault_files env;
     load_model := load_model env;
     frontmatter_loads := loads;
     yaml_roundtrip := λ v, Ok v;
     yaml_dump := λ md, (str "glyphstream:" ++ nl,
                         Some (Exn (str "RepresenterError")
                                   (str "cannot represent an object")));
     open_fault := λ _, None;
     device_limit := λ _, None;
     now_isoformat := now_isoformat env;
     now_strftime := now_strftime env;
     duration_text := duration_text env;
     log_create_fault := None |}.

(** The same collaborators with note files that cannot be opened for
    writing. *)
Definition env_open_raises : Env :=
  {| VAULT_PATH := VAULT_PATH env;
     vault_files := vault_files env;
     load_model := load_model env;
     frontmatter_loads := loads;
     yaml_roundtrip := λ v, Ok v;
     yaml_dump := yaml_dump env;
     open_fault := λ _, Some (Exn (str "PermissionError")
                                  (str "[Errno 13] Permission denied"));
     device_limit := λ _, None;
     now_isoformat := now_isoformat env;
     now_strftime := now_strftime env;
     duration_text := duration_text env;
     log_create_fault := None |}.

Definition world_with (notes : gmap pystr pystr) : World :=
  {| disk := notes; log_file := None; llm_requests := []; console := [];
     clock_reads := 0; sleeps := 0; processed_files := 0 |}.

Definition world : World :=
  world_with (<[note_path := long_body]> (<[other_path := short_body]> ∅)).

Definition world_marked : World :=
  world_with (<[note_path := marked_text]> ∅).

Definition llm : Llama := llm_replying (glyph_recursion ++ str ", " ++ glyph_eternal).

(** The note at [note_path] once parsed, and the assignment the model
    above leads to. *)
Definition post : Post := {| metadata := []; post_content := long_body |}.
Definition assigned : list pystr := [glyph_recursion; glyph_eternal].
Definition assigned_metadata : list (pystr * value) :=
  match build_glyph_metadata assigned [] with
  | Ok glyph_metadata => glyph_metadata
  | Raise _ => []
  end.
End Fixture.

(* ====================================================================== *)
(** * Further sample data                                                  *)
(* ====================================================================== *)

Module Scenario.
(** Two bodies that agree on their first 3000 characters only. *)
Definition long_prefix : pystr := replicate 3000 97%N.
Definition body1 : pystr := long_prefix ++ str " and then the garden".
Definition body2 : pystr := long_prefix ++ str " and then the sea, at night".

(** Metadata of plain values only; the list holds a dictionary. *)
Definition plain_metadata : list (pystr * value) :=
  [ (str "title", VStr (str "Garden"));
    (str "rating", VInt 4);
    (str "draft", VBool false);
    (str "links", VList [VStr (str "a"); VDict [(str "to", VStr (str "b"))]]) ].

(** A note whose header cannot be parsed, and a parser that says so. *)
Definition broken_text : pystr :=
  str "---" ++ nl ++ str "tags: [unclosed" ++ nl ++ str "---" ++ nl ++ Fixture.long_body.
Definition scanner_error : exn :=
  Exn (str "ScannerError") (str "while parsing a flow sequence").
Definition loads (text : pystr) : result Post :=
  if bool_decide (text = broken_text) then Raise scanner_error
  else if bool_decide (text = str "tags: null")
  then Ok {| metadata := [(str "tags", VNone)]; post_content := Fixture.long_body |}
  else Fixture.loads text.

Definition env : Env :=
  {| VAULT_PATH := VAULT_PATH Fixture.env;
     vault_files := vault_files Fixture.env;
     load_model := load_model Fixture.env;
     frontmatter_loads := loads;
     yaml_roundtrip := yaml_roundtrip Fixture.env;
     yaml_dump := yaml_dump Fixture.env;
     open_fault := open_fault Fixture.env;
     device_limit := device_limit Fixture.env;
     now_isoformat := now_isoformat Fixture.env;
     now_strftime := now_strftime Fixture.env;
     duration_text := duration_text Fixture.env;
     log_create_fault := None |}.

(** The metadata and the text of the note at [Fixture.note_path] after
    its update, and a parser that reads that text back. *)
Definition updated_metadata : list (pystr * value) :=
  enriched_metadata Fixture.post true Fixture.assigned Fixture.assigned_metadata
    (now_isoformat Fixture.env 0).
Definition updated_text : pystr :=
  new_text Fixture.env updated_metadata Fixture.long_body.
Definition loads_back (text : pystr) : result Post :=
  if bool_decide (text = updated_text)
  then Ok {| metadata := updated_metadata; post_content := Fixture.long_body |}
  else Fixture.loads text.

Definition env_reading_back : Env :=
  {| VAULT_PATH := VAULT_PATH Fixture.env;
     vault_files := vault_files Fixture.env;
     load_model := load_model Fixture.env;
     frontmatter_loads := loads_back;
     yaml_roundtrip := yaml_roundtrip Fixture.env;
     yaml_dump := yaml_dump Fixture.env;
     open_fault := open_fault Fixture.env;
     device_limit := device_limit Fixture.env;
     now_isoformat := now_isoformat Fixture.env;
     now_strftime := now_strftime Fixture.env;
     duration_text := duration_text Fixture.env;
     log_create_fault := None |}.

(** A vault whose directory cannot be written to: creating the log
    raises. *)
Definition env_read_only : Env :=
  {| VAULT_PATH := VAULT_PATH Fixture.env;
     vault_files := vault_files Fixture.env;
     load_model := load_model Fixture.env;
     frontmatter_loads := frontmatter_loads Fixture.env;
     yaml_roundtrip := yaml_roundtrip Fixture.env;
     yaml_dump := yaml_dump Fixture.env;
     open_fault := open_fault Fixture.env;
     device_limit := device_limit Fixture.env;
     now_isoformat := now_isoformat Fixture.env;
     now_strftime := now_strftime Fixture.env;
     duration_text := duration_text Fixture.env;
     log_create_fault := Some (Exn (str "PermissionError")
                                   (str "[Errno 13] Permission denied")) |}.

(** A short note whose header says [tags: null]. *)
Definition short_null_text : pystr :=
  str "---" ++ nl ++ str "tags: null" ++ nl ++ str "---" ++ nl ++ Fixture.short_body.
Definition loads_short (text : pystr) : result Post :=
  if bool_decide (text = short_null_text)
  then Ok {| metadata := [(str "tags", VNone)]; post_content := Fixture.short_body |}
  else Fixture.loads text.

Definition env_short : Env :=
  {| VAULT_PATH := VAULT_PATH Fixture.env;
     vault_files := vault_files Fixture.env;
     load_model := load_model Fixture.env;
     frontmatter_loads := loads_short;
     yaml_roundtrip := yaml_roundtrip Fixture.env;
     yaml_dump := yaml_dump Fixture.env;
     open_fault := open_fault Fixture.env;
     device_limit := device_limit Fixture.env;
     now_isoformat := now_isoformat Fixture.env;
     now_strftime := now_strftime Fixture.env;
     duration_text := duration_text Fixture.env;
     log_create_fault := None |}.

Definition world_short_null : World :=
  Fixture.world_with (<[Fixture.note_path := short_null_text]> ∅).

Definition world_broken : World :=
  Fixture.world_with (<[Fixture.note_path := broken_text]> ∅).
Definition world_null_tags : World :=
  Fixture.world_with (<[Fixture.note_path := str "tags: null"]> ∅).
End Scenario.

(* ====================================================================== *)
(** * The response validator                                               *)
(* ====================================================================== *)

Lemma dict_get_elem_of {V} (k : pystr) (d : list (pystr * V)) :
  dict_contains k d = true ↔ k ∈ d.*1.
Proof.
  unfold dict_contains. induction d as [|[k' v] d IH]; simpl.
  - split; [discriminate | intros H; inversion H].
  - case_bool_decide as Hk.
    + subst. split; [intros _; left | reflexivity].
    + rewrite IH. split; [now right|].
      intros H. apply elem_of_cons in H as [H|H]; [contradiction | exact H].
Qed.

Lemma valid_glyphs_filter (glyphs : list pystr) :
  valid_glyphs glyphs = filter (λ g, g ∈ GLYPH_LEXICON.*1) (py_strip <$> glyphs).
Proof.
  induction glyphs as [|g rest IH]; [reflexivity|].
  simpl valid_glyphs. rewrite fmap_cons, filter_cons.
  destruct (dict_contains (py_strip g) GLYPH_LEXICON) eqn:Hin.
  - apply dict_get_elem_of in Hin. rewrite decide_True by exact Hin. now f_equal.
  - rewrite decide_False; [exact IH|].
    intros H. apply dict_get_elem_of in H. congruence.
Qed.

Lemma valid_glyphs_in_lexicon (glyphs : list pystr) (g : pystr) :
  g ∈ valid_glyphs glyphs → g ∈ GLYPH_LEXICON.*1.
Proof.
  rewrite valid_glyphs_filter. intros H. now apply list_elem_of_filter in H as [H _].
Qed.

Lemma validate_glyphstream_sublist (glyphs : list pystr) (is_personal : bool) (g : pystr) :
  g ∈ validate_glyphstream glyphs is_personal → g ∈ valid_glyphs glyphs.
Proof.
  unfold validate_glyphstream.
  destruct (negb is_personal && negb (existsb is_permission_glyph (valid_glyphs glyphs))).
  - intros H. inversion H.
  - intros H. eapply subseteq_take; eauto.
Qed.

(** C4. For a shared stream, when no valid token is a permission-gated
    symbol of the lexicon, the validator returns exactly the empty
    stream. *)
Theorem shared_gate_rejects (glyphs : list pystr) :
  (∀ g, g ∈ valid_glyphs glyphs → g ∉ permission_glyphs) →
  validate_glyphstream glyphs false = [].
Proof.
  intros Hnone. unfold validate_glyphstream.
  destruct (existsb is_permission_glyph (valid_glyphs glyphs)) eqn:Hex; [|reflexivity].
  apply existsb_exists in Hex as (g & Hin & Hperm).
  apply list_elem_of_In in Hin. unfold is_permission_glyph in Hperm.
  apply bool_decide_eq_true in Hperm. now destruct (Hnone g Hin).
Qed.

Lemma shared_gate_rejects_witness :
  (∀ g, g ∈ valid_glyphs [glyph_paradox; glyph_recursion] → g ∉ permission_glyphs) ∧
  validate_glyphstream [glyph_paradox; glyph_recursion] false = [].
Proof.
  assert (H : ∀ g, g ∈ valid_glyphs [glyph_paradox; glyph_recursion] →
                   g ∉ permission_glyphs).
  { apply Forall_forall, (bool_decide_unpack _). vm_compute. exact I. }
  split; [exact H | exact (shared_gate_rejects _ H)].
Defined.

(** What the permission gate does guarantee for a shared stream: a
    non-empty result means that some valid token, before truncation, is a
    permission-gated symbol. *)
Lemma shared_stream_gate_passed (glyphs : list pystr) :
  validate_glyphstream glyphs false ≠ [] →
  ∃ g, g ∈ valid_glyphs glyphs ∧ g ∈ permission_glyphs.
Proof.
  unfold validate_glyphstream. simpl.
  destruct (existsb is_permission_glyph (valid_glyphs glyphs)) eqn:Hex;
    simpl; [intros _ | congruence].
  apply existsb_exists in Hex as (g & Hin & Hperm).
  exists g. split; [now apply list_elem_of_In|].
  now apply bool_decide_eq_true in Hperm.
Qed.

(** C1, evaluated where it fails.  Seven copies of a symbol that needs no
    permission followed by a permission-gated one pass the gate, which
    looks at all valid tokens; the truncation to seven then drops the only
    permission-gated symbol.  The shared stream returned is not empty and
    holds no permission-gated glyph. *)
Theorem shared_stream_without_permission_glyph :
  let tokens := replicate 7 glyph_paradox ++ [glyph_temporal_fold] in
  validate_glyphstream tokens false = replicate 7 glyph_paradox ∧
  validate_glyphstream tokens false ≠ [] ∧
  (∀ g, g ∈ validate_glyphstream tokens false → g ∉ permission_glyphs).
Proof.
  assert (Hrun : validate_glyphstream (replicate 7 glyph_paradox ++ [glyph_temporal_fold])
                   false = replicate 7 glyph_paradox) by (vm_compute; reflexivity).
  cbv zeta. rewrite Hrun. split; [reflexivity|]. split; [discriminate|].
  apply Forall_forall, (bool_decide_unpack _). vm_compute. exact I.
Qed.




(* ====================================================================== *)
(** * Running the effects                                                  *)
(* ====================================================================== *)

Lemma bind_ok {A B} (c : M A) (f : A → M B) (w w' : World) (a : A) :
  c w = (Ok a, w') → (c ≫= f) w = f a w'.
Proof. intros H. unfold mbind, M_bind. now rewrite H. Qed.

Lemma bind_raise {A B} (c : M A) (f : A → M B) (w w' : World) (e : exn) :
  c w = (Raise e, w') → (c ≫= f) w = (Raise e, w').
Proof. intros H. unfold mbind, M_bind. now rewrite H. Qed.

Lemma try_ok {A} (c : M A) (h : exn → M A) (w w' : World) (a : A) :
  c w = (Ok a, w') → try_except c h w = (Ok a, w').
Proof. intros H. unfold try_except. now rewrite H. Qed.

Lemma try_raise {A} (c : M A) (h : exn → M A) (w w' : World) (e : exn) :
  c w = (Raise e, w') → try_except c h w = h e w'.
Proof. intros H. unfold try_except. now rewrite H. Qed.

Lemma log_assignment_run (env : Env) filename gl act err (w : World) :
  ∃ w', log_assignment env filename gl act err w = (Ok tt, w') ∧
        logs_one w w' filename act gl err.
Proof.
  unfold log_assignment, now, mbind, M_bind, modify. simpl.
  eexists. split; [reflexivity|].
  split; try reflexivity. eexists. split; [reflexivity|]. now repeat split.
Qed.

Lemma touches_only_refl (p : pystr) (w : World) : touches_only p w w.
Proof. now split. Qed.

Lemma touches_only_trans (p : pystr) (w1 w2 w3 : World) :
  touches_only p w1 w2 → touches_only p w2 w3 → touches_only p w1 w3.
Proof.
  intros [L1 R1 P1 D1] [L2 R2 P2 D2]. split; try congruence.
  intros q Hq. rewrite D2, D1; auto.
Qed.

Lemma f_write_touches (env : Env) (p text : pystr) (w : World) :
  touches_only p w (f_write env p text w).2.
Proof.
  unfold f_write.
  destruct (device_limit env p) as [[limit e]|];
    [destruct (limit <? _)|]; simpl; split; try reflexivity;
    intros q Hq; simpl; now rewrite lookup_insert_ne.
Qed.

Lemma open_w_touches (env : Env) (p : pystr) (w : World) :
  touches_only p w (open_w env p w).2.
Proof.
  unfold open_w. destruct (open_fault env p); simpl; split; try reflexivity.
  intros q Hq; simpl; now rewrite lookup_insert_ne.
Qed.

Section Keeps.
Variable R : World → World → Prop.
Hypothesis R_refl : ∀ w, R w w.
Hypothesis R_trans : ∀ w1 w2 w3, R w1 w2 → R w2 w3 → R w1 w3.

Lemma keeps_ret {A} (a : A) : keeps R (mret a).
Proof. intros w. apply R_refl. Qed.

Lemma keeps_lift {A} (r : result A) : keeps R (lift r).
Proof. intros w. apply R_refl. Qed.

Lemma keeps_throw {A} (e : exn) : keeps R (throw (A:=A) e).
Proof. intros w. apply R_refl. Qed.

Lemma keeps_bind {A B} (c : M A) (f : A → M B) :
  keeps R c → (∀ a, keeps R (f a)) → keeps R (c ≫= f).
Proof.
  intros Hc Hf w. specialize (Hc w). unfold mbind, M_bind.
  destruct (c w) as [[a|e] w1]; simpl in *; [|exact Hc].
  eapply R_trans; [exact Hc | apply Hf].
Qed.

Lemma keeps_try {A} (c : M A) (h : exn → M A) :
  keeps R c → (∀ e, keeps R (h e)) → keeps R (try_except c h).
Proof.
  intros Hc Hh w. specialize (Hc w). unfold try_except.
  destruct (c w) as [[a|e] w1]; simpl in *; [exact Hc|].
  eapply R_trans; [exact Hc | apply Hh].
Qed.
End Keeps.

Lemma returns_try {A} (c : M A) (h : exn → M A) :
  (∀ e, returns (h e)) → returns (try_except c h).
Proof.
  intros Hh w. unfold try_except.
  destruct (c w) as [[a|e] w1]; [now exists a | apply Hh].
Qed.

Lemma run_returns {A} (c : M A) (w : World) :
  returns c → ∃ a w', c w = (Ok a, w').
Proof.
  intros H. destruct (H w) as [a Ha]. exists a, (c w).2.
  destruct (c w); simpl in *; now subst.
Qed.

Lemma print_touches (p line : pystr) : keeps (touches_only p) (print line).
Proof. intros w. now split. Qed.

Lemma write_obsidian_file_touches (env : Env) (p : pystr)
  (md : list (pystr * value)) (content : pystr) :
  keeps (touches_only p) (write_obsidian_file env p md content).
Proof.
  pose proof (touches_only_refl p) as Hr. pose proof (touches_only_trans p) as Ht.
  unfold write_obsidian_file.
  apply keeps_try; [exact Ht| |].
  - apply keeps_bind; [exact Ht | now apply keeps_lift |]. intros safe.
    apply keeps_bind; [exact Ht | intros w; apply open_w_touches |]. intros _.
    apply keeps_bind; [exact Ht | intros w; apply f_write_touches |]. intros _.
    apply keeps_bind; [exact Ht | |].
    { unfold yaml_dump_to. destruct (yaml_dump env safe) as [emitted failure].
      apply keeps_bind; [exact Ht | intros w; apply f_write_touches |]. intros _.
      destruct failure; [now apply keeps_throw | now apply keeps_ret]. }
    intros _.
    apply keeps_bind; [exact Ht | intros w; apply f_write_touches |]. intros _.
    apply keeps_bind; [exact Ht | intros w; apply f_write_touches |]. intros _.
    now apply keeps_ret.
  - intros e. apply keeps_bind; [exact Ht | apply print_touches |]. intros _.
    now apply keeps_ret.
Qed.

Lemma write_obsidian_file_returns (env : Env) (p : pystr)
  (md : list (pystr * value)) (content : pystr) :
  returns (write_obsidian_file env p md content).
Proof.
  unfold write_obsidian_file. apply returns_try. intros e w. now exists false.
Qed.

(* ====================================================================== *)
(** * The glyph assigner                                                   *)
(* ====================================================================== *)

(** The assigner returns in every world, after no completion call for a
    text of fewer than 50 characters and after exactly one otherwise. *)
Lemma llm_assign_glyphs_run (llm : Llama) (text : pystr) (is_personal : bool)
  (w : World) :
  ∃ glyphstream w',
    llm_assign_glyphs llm text is_personal w = (Ok glyphstream, w') ∧
    asks_model (if length text <? 50 then []
                else [completion_messages text is_personal]) w w'.
Proof.
  unfold llm_assign_glyphs. destruct (length text <? 50).
  { exists [], w. split; [reflexivity|]. split; try reflexivity.
    now rewrite app_nil_r. }
  unfold try_except, mbind, M_bind, create_chat_completion, lift, print, modify.
  destruct (llm (llm_requests w) (completion_messages text is_personal))
    as [response|e]; simpl.
  - destruct (response_text response) as [raw|e]; simpl;
      eexists _, _; (split; [reflexivity|]); now split.
  - eexists _, _. split; [reflexivity|]. now split.
Qed.

(** C7. When the completion interface fails, because the call raises or
    because the response does not have the shape the assigner reads, the
    assigner returns the empty stream to its caller: nothing is raised,
    and the model was called no more than the one time. *)
Theorem model_failure_gives_empty_stream (llm : Llama) (text : pystr)
  (is_personal : bool) (w : World) (e : exn) :
  50 ≤ length text →
  (llm (llm_requests w) (completion_messages text is_personal) ≫= response_text)
    = Raise e →
  ∃ w', llm_assign_glyphs llm text is_personal w = (Ok [], w') ∧
        llm_requests w' = llm_requests w ++ [completion_messages text is_personal] ∧
        log_file w' = log_file w ∧ disk w' = disk w.
Proof.
  intros Hlen Hfail. unfold llm_assign_glyphs.
  destruct (length text <? 50) eqn:Hshort; [apply Nat.ltb_lt in Hshort; lia|].
  unfold try_except, mbind, M_bind, create_chat_completion, lift, print, modify.
  unfold mbind, result_bind in Hfail.
  destruct (llm (llm_requests w) (completion_messages text is_personal))
    as [response|e']; simpl.
  - rewrite Hfail. simpl. eexists. split; [reflexivity|]. now repeat split.
  - eexists. split; [reflexivity|]. now repeat split.
Qed.

(* ====================================================================== *)
(** * The note processor                                                   *)
(* ====================================================================== *)

Lemma write_obsidian_file_run (env : Env) (p : pystr)
  (md : list (pystr * value)) (content : pystr) (w : World) :
  ∃ written w', write_obsidian_file env p md content w = (Ok written, w') ∧
                touches_only p w w'.
Proof.
  destruct (run_returns _ w (write_obsidian_file_returns env p md content))
    as (written & w' & Hrun).
  exists written, w'. split; [exact Hrun|].
  pose proof (write_obsidian_file_touches env p md content w) as H.
  now rewrite Hrun in H.
Qed.

(** The branch that persists an assignment: unless building the glyph
    metadata raises, it returns after logging one line, UPDATED or
    WRITE_FAILED according to what the writer returned. *)
Lemma update_note_run (env : Env) (p : pystr) (post : Post) (is_personal : bool)
  (gs : list pystr) (w : World) :
  ∃ r w', update_note env p post is_personal gs w = (r, w') ∧
    llm_requests w' = llm_requests w ∧
    (∀ q, q ≠ p → disk w' !! q = disk w !! q) ∧
    match r with
    | Ok _ => ∃ e, log_file w' = Some (log_lines w ++ [e]) ∧
                   file e = path_name p ∧ glyphs e = gs ∧
                   (action e = UPDATED ∨ action e = WRITE_FAILED)
    | Raise _ => log_file w' = log_file w
    end.
Proof.
  unfold update_note, mbind at 1, M_bind at 1, lift.
  destruct (build_glyph_metadata gs []) as [gm|e]; simpl.
  2: { eexists _, _. split; [reflexivity|]. now repeat split. }
  unfold mbind at 1, M_bind at 1, now.
  set (w1 := set_clock_reads S w).
  set (md := enriched_metadata _ _ _ _ _).
  destruct (write_obsidian_file_run env p md (post_content post) w1)
    as (written & w2 & Hrun & [L2 R2 P2 D2]).
  change (llm_requests w1) with (llm_requests w) in R2.
  change (log_file w1) with (log_file w) in L2.
  change (disk w1) with (disk w) in D2.
  unfold mbind at 1, M_bind at 1. rewrite Hrun.
  destruct written.
  - destruct (log_assignment_run env (path_name p) gs UPDATED None w2)
      as (w3 & Hlog & [(e & He & Hf & Ha & Hg & _) D3 R3 P3]).
    unfold mbind at 1, M_bind at 1. rewrite Hlog.
    unfold mbind, M_bind, print, modify. simpl.
    eexists _, _. split; [reflexivity|]. simpl.
    split; [congruence|]. split; [intros q Hq; rewrite D3; now apply D2|].
    exists e. unfold log_lines in *. rewrite He, L2. simpl. now repeat split; auto.
  - destruct (log_assignment_run env (path_name p) gs WRITE_FAILED None w2)
      as (w3 & Hlog & [(e & He & Hf & Ha & Hg & _) D3 R3 P3]).
    rewrite Hlog. eexists _, _. split; [reflexivity|].
    split; [congruence|]. split; [intros q Hq; rewrite D3; now apply D2|].
    exists e. unfold log_lines in *. rewrite He, L2. simpl. now repeat split; auto.
Qed.

(** The body of the loop either returns after logging exactly one line for
    the note, or raises before logging anything. *)
Lemma process_note_body_run (env : Env) (llm : Llama) (p : pystr) (w : World) :
  ∃ r w', process_note_body env llm p w = (r, w') ∧
    (∀ q, q ≠ p → disk w' !! q = disk w !! q) ∧
    match r with
    | Ok _ => ∃ e, log_file w' = Some (log_lines w ++ [e]) ∧ file e = path_name p
    | Raise _ => log_file w' = log_file w
    end.
Proof.
  unfold process_note_body.
  destruct (frontmatter_load env p w) as [[post|e] w0] eqn:Hload.
  2: { erewrite bind_raise by exact Hload. eexists _, _. split; [reflexivity|].
       unfold frontmatter_load in Hload.
       destruct (disk w !! p); inversion Hload; subst; now split. }
  assert (w0 = w) as ->.
  { unfold frontmatter_load in Hload. destruct (disk w !! p); now inversion Hload. }
  erewrite bind_ok by exact Hload.
  destruct (dict_contains (str "glyphstream") (metadata post)).
  { destruct (log_assignment_run env (path_name p) [] SKIPPED None w)
      as (w1 & Hlog & [(e & He & Hf & _) D1 _ _]).
    rewrite Hlog. eexists _, _. split; [reflexivity|].
    split; [intros q _; now rewrite D1 | now exists e]. }
  erewrite bind_ok by reflexivity.
  set (w1 := set_console _ w).
  destruct (stream_is_personal post) as [is_personal|e] eqn:Hkind.
  2: { erewrite bind_raise by reflexivity. eexists _, _. split; [reflexivity|].
       now split. }
  erewrite bind_ok by reflexivity.
  destruct (llm_assign_glyphs_run llm (post_content post) is_personal w1)
    as (gs & w2 & Hassign & [_ L2 D2 _]).
  change (log_file w1) with (log_file w) in L2.
  change (disk w1) with (disk w) in D2.
  erewrite bind_ok by exact Hassign.
  destruct gs as [|g gs].
  - destruct (log_assignment_run env (path_name p) [] NO_MATCH None w2)
      as (w3 & Hlog & [(e & He & Hf & _) D3 _ _]).
    erewrite bind_ok by exact Hlog.
    eexists _, _. split; [reflexivity|]. simpl.
    split; [intros q _; congruence|].
    exists e. unfold log_lines in *. rewrite He, L2. now split.
  - destruct (update_note_run env p post is_personal (g :: gs) w2)
      as ([[]|e] & w3 & Hupd & _ & D3 & Hout).
    + erewrite bind_ok by exact Hupd.
      eexists _, _. split; [reflexivity|]. simpl.
      split; [intros q Hq; rewrite D3, D2; auto|].
      destruct Hout as (e & He & Hf & _). exists e.
      unfold log_lines in *. rewrite He, L2. now split.
    + erewrite bind_raise by exact Hupd.
      eexists _, _. split; [reflexivity|].
      split; [intros q Hq; rewrite D3, D2; auto | congruence].
Qed.

(** One iteration of the loop returns in every world, with exactly one new
    line in the audit log, for the note it visited; the lines that were
    there stay, and no other note is touched. *)
Lemma process_note_run (env : Env) (llm : Llama) (p : pystr) (w : World) :
  ∃ w' e, process_note env llm p w = (Ok tt, w') ∧
    log_file w' = Some (log_lines w ++ [e]) ∧ file e = path_name p ∧
    (∀ q, q ≠ p → disk w' !! q = disk w !! q).
Proof.
  unfold process_note.
  destruct (process_note_body_run env llm p w) as ([[]|ex] & w1 & Hbody & D1 & Hout).
  - erewrite try_ok by exact Hbody. destruct Hout as (e & He & Hf).
    now exists w1, e.
  - erewrite try_raise by exact Hbody.
    destruct (log_assignment_run env (path_name p) [] ERROR
                (Some (exn_type ex ++ str ": " ++ exn_msg ex)) w1)
      as (w2 & Hlog & [(e & He & Hf & _) D2 _ _]).
    erewrite bind_ok by exact Hlog.
    eexists _, e. split; [reflexivity|]. simpl.
    unfold log_lines in *. rewrite He, Hout.
    split; [reflexivity|]. split; [exact Hf|]. intros q Hq. rewrite D2. auto.
Qed.

Lemma for_each_process_note_run (env : Env) (llm : Llama) (files : list pystr)
  (w : World) :
  ∃ w' es, for_each files (process_note env llm) w = (Ok tt, w') ∧
           log_lines w' = log_lines w ++ es ∧
           file <$> es = path_name <$> files.
Proof.
  revert w. induction files as [|p files IH]; intros w.
  - exists w, []. split; [reflexivity|]. now rewrite app_nil_r.
  - destruct (process_note_run env llm p w) as (w1 & e & Hrun & He & Hf & _).
    destruct (IH w1) as (w2 & es & Hrest & Hes & Hfiles).
    exists w2, (e :: es). simpl for_each. erewrite bind_ok by exact Hrun.
    split; [exact Hrest|]. split.
    + rewrite Hes. unfold log_lines at 1. rewrite He. simpl.
      now rewrite <- app_assoc.
    + now rewrite !fmap_cons, Hf, Hfiles.
Qed.

Lemma create_log_file_run (env : Env) (w : World) :
  ∃ r w', create_log_file env w = (r, w') ∧
    log_lines w' = log_lines w ∧
    llm_requests w' = llm_requests w ∧ sleeps w' = sleeps w ∧
    disk w' = disk w ∧ console w' = console w ∧
    match log_file w, log_create_fault env with
    | None, Some e => r = Raise e ∧ w' = w
    | _, _ => r = Ok tt ∧ log_file w' = Some (log_lines w)
    end.
Proof.
  unfold create_log_file, log_lines.
  destruct (log_file w) as [lines|] eqn:Hlog.
  - exists (Ok tt), w. rewrite Hlog. now repeat split.
  - destruct (log_create_fault env) as [e|].
    + exists (Raise e), w. rewrite Hlog. now repeat split.
    + eexists (Ok tt), _. split; [reflexivity|]. now repeat split.
Qed.

(** C9. A run appends to the audit log exactly one line per note it
    visits, in the order of the visit, each for the note it was written
    for; the lines the log held before the run are still there, unchanged
    and in front.  A run whose model cannot be loaded, or whose absent
    log cannot be created, raises before it visits any note and appends
    nothing. *)
Theorem one_log_entry_per_note (env : Env) (w : World) :
  ∃ r w' es, process_vault env w = (r, w') ∧
             log_lines w' = log_lines w ++ es ∧
             match load_model env with
             | Raise e => r = Raise e ∧ es = []
             | Ok _ =>
                 match log_file w, log_create_fault env with
                 | None, Some e => r = Raise e ∧ es = []
                 | _, _ => r = Ok tt ∧
                           file <$> es = path_name <$> vault_files env
                 end
             end.
Proof.
  unfold process_vault, initialize_llm.
  destruct (load_model env) as [llm|e].
  2: { erewrite bind_raise by reflexivity. exists (Raise e), w, [].
       split; [reflexivity|]. now rewrite app_nil_r. }
  erewrite bind_ok by reflexivity.
  destruct (create_log_file_run env w)
    as ([[]|e0] & w0 & Hcreate & L0 & _ & _ & _ & _ & Hcase).
  - erewrite bind_ok by exact Hcreate.
    do 2 (erewrite bind_ok by reflexivity).
    match goal with
    | |- context [(for_each ?fs ?b ≫= ?k) ?w1] =>
        destruct (for_each_process_note_run env llm fs w1)
          as (w2 & es & Hrun & Hes & Hf)
    end.
    erewrite bind_ok by exact Hrun.
    do 3 (erewrite bind_ok by reflexivity).
    eexists _, _, es. split; [reflexivity|]. split.
    + unfold log_lines in *. simpl in *. now rewrite Hes, L0.
    + destruct (log_file w); [now split|].
      destruct (log_create_fault env); [|now split].
      destruct Hcase as [Hr _]. discriminate.
  - erewrite bind_raise by exact Hcreate.
    exists (Raise e0), w0, []. split; [reflexivity|].
    rewrite app_nil_r. split; [exact L0|].
    destruct (log_file w); [destruct Hcase as [Hr _]; discriminate|].
    destruct (log_create_fault env); [|destruct Hcase as [Hr _]; discriminate].
    destruct Hcase as [Hr _]. now split.
Qed.

(* ====================================================================== *)
(** * The note writer                                                      *)
(* ====================================================================== *)

(** A failure while the metadata is prepared, or in [open], is reported as
    [False] with every note as it was. *)
Lemma write_fails_before_open (env : Env) (p : pystr)
  (md : list (pystr * value)) (content : pystr) (w : World) :
  (∃ e, prepare_metadata env md [] = Raise e) ∨ (∃ e, open_fault env p = Some e) →
  ∃ w', write_obsidian_file env p md content w = (Ok false, w') ∧
        disk w' = disk w.
Proof.
  intros Hcause. unfold write_obsidian_file.
  destruct (prepare_metadata env md []) as [safe|e] eqn:Hprep.
  - destruct Hcause as [[e He]|[e He]]; [discriminate|].
    erewrite try_raise.
    2: { erewrite bind_ok by reflexivity. erewrite bind_raise; [reflexivity|].
         unfold open_w. rewrite He. reflexivity. }
    eexists. split; [reflexivity|reflexivity].
  - erewrite try_raise by (erewrite bind_raise by reflexivity; reflexivity).
    eexists. split; [reflexivity|reflexivity].
Qed.

Lemma f_write_run (env : Env) (p text c : pystr) (w : World) :
  disk w !! p = Some c →
  ∃ r w', f_write env p text w = (r, w') ∧
    match r with
    | Ok _ => disk w' !! p = Some (c ++ text) ∧
              ∀ n e, device_limit env p = Some (n, e) → length (c ++ text) ≤ n
    | Raise _ => ∃ n e, device_limit env p = Some (n, e) ∧
                        n < length (c ++ text) ∧
                        disk w' !! p = Some (c ++ take (n - length c) text)
    end.
Proof.
  intros Hc. unfold f_write. rewrite Hc. simpl.
  destruct (device_limit env p) as [[limit e]|].
  - destruct (limit <? length c + length text) eqn:Hfit.
    + eexists _, _. split; [reflexivity|]. exists limit, e. simpl.
      rewrite lookup_insert_eq, length_app. apply Nat.ltb_lt in Hfit. now split.
    + eexists _, _. split; [reflexivity|]. simpl. rewrite lookup_insert_eq.
      split; [reflexivity|]. intros n e' [= <- <-].
      rewrite length_app. apply Nat.ltb_ge in Hfit. exact Hfit.
  - eexists _, _. split; [reflexivity|]. simpl. rewrite lookup_insert_eq.
    split; [reflexivity | discriminate].
Qed.

Lemma prefix_chunk (c t rest : pystr) (m : nat) :
  (c ++ take m t) `prefix_of` (c ++ t ++ rest).
Proof.
  exists (drop m t ++ rest). rewrite <- app_assoc. f_equal.
  now rewrite app_assoc, take_drop.
Qed.

(** Once the file has been opened, it holds a prefix of the new text: all
    of it when the writer returns [True], and a strictly shorter part when
    it returns [False]. *)
Lemma write_after_open (env : Env) (p : pystr) (md safe : list (pystr * value))
  (content : pystr) (w : World) :
  prepare_metadata env md [] = Ok safe →
  open_fault env p = None →
  ∃ written w' s, write_obsidian_file env p md content w = (Ok written, w') ∧
    disk w' !! p = Some s ∧
    s `prefix_of` new_text env safe content ∧
    if written : bool then s = new_text env safe content
    else length s < length (new_text env safe content).
Proof.
  intros Hprep Hopen. unfold write_obsidian_file, try_except, new_text.
  rewrite Hprep. erewrite bind_ok by reflexivity.
  erewrite bind_ok by (unfold open_w; rewrite Hopen; reflexivity).
  set (w1 := set_disk _ w).
  assert (H1 : disk w1 !! p = Some []) by apply lookup_insert_eq.
  unfold yaml_dump_to.
  destruct (yaml_dump env safe) as [emitted failure]. simpl fst.
  remember (str "---" ++ nl) as t1 eqn:Et1.
  remember (str "---" ++ nl ++ nl) as t3 eqn:Et3.
  remember (py_strip content) as t4 eqn:Et4.
  assert (Ht3 : 0 < length t3) by (subst t3; vm_compute; lia).
  clear Et1 Et3 Et4.
  destruct (f_write_run env p t1 [] w1 H1) as ([[]|e1] & w2 & E1 & O1).
  2: { erewrite bind_raise by exact E1. destruct O1 as (n & e & _ & Hn & Hs).
       eexists false, _, _. split; [reflexivity|]. split; [exact Hs|].
       split; [apply (prefix_chunk [] t1)|].
       change (length ([] ++ t1)) with (length t1) in Hn.
       change (length ([] ++ take (n - length []) t1))
         with (length (take (n - 0) t1)).
       rewrite !length_app, length_take. lia. }
  erewrite bind_ok by exact E1. destruct O1 as [O1 _].
  change ([] ++ t1) with t1 in O1.
  destruct (f_write_run env p emitted t1 w2 O1) as ([[]|e2] & w3 & E2 & O2).
  2: { erewrite bind_raise by (erewrite bind_raise by exact E2; reflexivity).
       destruct O2 as (n & e & _ & Hn & Hs).
       eexists false, _, _. split; [reflexivity|]. split; [exact Hs|].
       split; [apply prefix_chunk|].
       rewrite !length_app, length_take in *. lia. }
  destruct O2 as [O2 _].
  destruct failure as [e|].
  { erewrite bind_raise by (erewrite bind_ok by exact E2; reflexivity).
    eexists false, _, _. split; [reflexivity|]. split; [exact O2|].
    split; [exists (t3 ++ t4); now rewrite <- app_assoc|].
    rewrite !length_app. lia. }
  erewrite bind_ok by (erewrite bind_ok by exact E2; reflexivity).
  destruct (f_write_run env p t3 (t1 ++ emitted) w3 O2) as ([[]|e3] & w4 & E3 & O3).
  2: { erewrite bind_raise by exact E3. destruct O3 as (n & e & _ & Hn & Hs).
       eexists false, _, _. split; [reflexivity|]. split; [exact Hs|].
       split; [rewrite (app_assoc t1 emitted (t3 ++ t4)); apply prefix_chunk|].
       rewrite !length_app, length_take in *. lia. }
  erewrite bind_ok by exact E3. destruct O3 as [O3 Hfit3].
  destruct (f_write_run env p t4 ((t1 ++ emitted) ++ t3) w4 O3)
    as ([[]|e4] & w5 & E4 & O4).
  2: { erewrite bind_raise by exact E4. destruct O4 as (n & e & Hlim & Hn & Hs).
       specialize (Hfit3 n e Hlim).
       eexists false, _, _. split; [reflexivity|]. split; [exact Hs|].
       split.
       - exists (drop (n - length ((t1 ++ emitted) ++ t3)) t4).
         rewrite <- !app_assoc. do 3 f_equal. now rewrite take_drop.
       - rewrite !length_app, length_take in *. lia. }
  erewrite bind_ok by exact E4. destruct O4 as [O4 _].
  eexists true, _, _. split; [reflexivity|]. split; [exact O4|].
  rewrite <- !app_assoc. split; reflexivity.
Qed.

(** C2, refuted.  A dump that raises after the file has been opened is
    logged as WRITE_FAILED, and the note no longer holds its text: it
    holds the part of the new header written before the exception. *)
Lemma failed_write_leaves_note_truncated :
  let w := Fixture.world in
  let w' := (process_note Fixture.env_dump_raises Fixture.llm Fixture.note_path w).2 in
  action <$> log_lines w' = [WRITE_FAILED] ∧
  disk w !! Fixture.note_path = Some Fixture.long_body ∧
  disk w' !! Fixture.note_path = Some (str "---" ++ nl ++ str "glyphstream:" ++ nl) ∧
  disk w' !! Fixture.note_path ≠ disk w !! Fixture.note_path.
Proof.
  cbv zeta.
  assert (Hlog : action <$> log_lines
            (process_note Fixture.env_dump_raises Fixture.llm Fixture.note_path
               Fixture.world).2 = [WRITE_FAILED]) by (vm_compute; reflexivity).
  assert (Hbefore : disk Fixture.world !! Fixture.note_path = Some Fixture.long_body)
    by (vm_compute; reflexivity).
  assert (Hafter : disk (process_note Fixture.env_dump_raises Fixture.llm
                           Fixture.note_path Fixture.world).2 !! Fixture.note_path
                   = Some (str "---" ++ nl ++ str "glyphstream:" ++ nl))
    by (vm_compute; reflexivity).
  repeat split; try assumption.
  rewrite Hbefore, Hafter. vm_compute. discriminate.
Qed.

(** C2, amended.  When the writer reports a failure for an updated note,
    exactly one line is appended to the audit log for that note, with
    action WRITE_FAILED and the glyph list that was being written; no
    other note is touched, and the loop goes on with the notes that
    follow.  The note keeps its text when the failure comes before the
    file is opened for writing (while the metadata is prepared, or in
    [open]); after that the file holds a strictly shorter prefix of the
    text that was being written. *)
Theorem write_failure_logged_and_isolated (env : Env) (llm : Llama) (p : pystr)
  (post : Post) (is_personal : bool) (gs : list pystr)
  (gm md : list (pystr * value)) (w w2 : World) :
  build_glyph_metadata gs [] = Ok gm →
  md = enriched_metadata post is_personal gs gm (now_isoformat env (clock_reads w)) →
  write_obsidian_file env p md (post_content post) (set_clock_reads S w)
    = (Ok false, w2) →
  ∃ w' e,
    update_note env p post is_personal gs w = (Ok tt, w') ∧
    log_file w' = Some (log_lines w ++ [e]) ∧
    file e = path_name p ∧ action e = WRITE_FAILED ∧ glyphs e = gs ∧
    (∀ q, q ≠ p → disk w' !! q = disk w !! q) ∧
    ((∃ ex, prepare_metadata env md [] = Raise ex) ∨
     (∃ ex, open_fault env p = Some ex) → disk w' = disk w) ∧
    (∀ safe, prepare_metadata env md [] = Ok safe → open_fault env p = None →
       ∃ s, disk w' !! p = Some s ∧
            s `prefix_of` new_text env safe (post_content post) ∧
            length s < length (new_text env safe (post_content post))) ∧
    (∀ rest w0, ∃ w1,
       process_note env llm p w0 = (Ok tt, w1) ∧
       for_each (p :: rest) (process_note env llm) w0
         = for_each rest (process_note env llm) w1).
Proof.
  intros Hbuild -> Hwrite.
  set (md := enriched_metadata _ _ _ _ _) in *.
  pose proof (write_obsidian_file_touches env p md (post_content post)
                (set_clock_reads S w)) as Htouch.
  rewrite Hwrite in Htouch. destruct Htouch as [L2 _ _ D2]. simpl in L2, D2.
  destruct (log_assignment_run env (path_name p) gs WRITE_FAILED None w2)
    as (w3 & Hlog & [(e & He & Hf & Ha & Hg & _) D3 _ _]).
  exists w3, e. split; [|split; [|split; [|split; [|split; [|split; [|split; [|split]]]]]]].
  - unfold update_note. rewrite Hbuild. erewrite bind_ok by reflexivity.
    erewrite bind_ok by reflexivity. fold md. erewrite bind_ok by exact Hwrite.
    exact Hlog.
  - unfold log_lines in *. now rewrite He, L2.
  - exact Hf.
  - exact Ha.
  - exact Hg.
  - intros q Hq. rewrite D3. now apply D2.
  - intros Hcause.
    destruct (write_fails_before_open env p md (post_content post)
                (set_clock_reads S w) Hcause) as (w2' & Hrun & Hdisk).
    rewrite Hwrite in Hrun. injection Hrun as <-. now rewrite D3, Hdisk.
  - intros safe Hprep Hopen.
    destruct (write_after_open env p md safe (post_content post)
                (set_clock_reads S w) Hprep Hopen)
      as (written & w2' & s & Hrun & Hs & Hpre & Hlen).
    rewrite Hwrite in Hrun. injection Hrun as <- <-.
    exists s. rewrite D3. now repeat split.
  - intros rest w0.
    destruct (process_note_run env llm p w0) as (w1 & e1 & Hrun & _).
    exists w1. split; [exact Hrun|]. simpl for_each.
    now erewrite bind_ok by exact Hrun.
Qed.

Lemma write_failure_logged_and_isolated_witness :
  build_glyph_metadata Fixture.assigned [] = Ok Fixture.assigned_metadata ∧
  (write_obsidian_file Fixture.env_open_raises Fixture.note_path
     (enriched_metadata Fixture.post true Fixture.assigned Fixture.assigned_metadata
        (now_isoformat Fixture.env_open_raises (clock_reads Fixture.world)))
     (post_content Fixture.post) (set_clock_reads S Fixture.world)).1 = Ok false ∧
  ∃ w' e,
    update_note Fixture.env_open_raises Fixture.note_path Fixture.post true
      Fixture.assigned Fixture.world = (Ok tt, w') ∧
    log_file w' = Some (log_lines Fixture.world ++ [e]) ∧
    action e = WRITE_FAILED ∧ glyphs e = Fixture.assigned ∧
    disk w' = disk Fixture.world.
Proof.
  assert (Hbuild : build_glyph_metadata Fixture.assigned []
                   = Ok Fixture.assigned_metadata) by (vm_compute; reflexivity).
  set (md := enriched_metadata Fixture.post true Fixture.assigned
               Fixture.assigned_metadata
               (now_isoformat Fixture.env_open_raises (clock_reads Fixture.world))).
  set (run := write_obsidian_file Fixture.env_open_raises Fixture.note_path md
                (post_content Fixture.post) (set_clock_reads S Fixture.world)).
  assert (Hwrite : run = (Ok false, run.2)) by (vm_compute; reflexivity).
  split; [exact Hbuild|]. split; [now rewrite Hwrite|].
  destruct (write_failure_logged_and_isolated Fixture.env_open_raises Fixture.llm
              Fixture.note_path Fixture.post true Fixture.assigned
              Fixture.assigned_metadata md Fixture.world run.2
              Hbuild eq_refl Hwrite)
    as (w' & e & Hrun & Hlog & _ & Ha & Hg & _ & Hsame & _).
  exists w', e. repeat split; try assumption.
  apply Hsame. right. eexists. reflexivity.
Defined.

(* ====================================================================== *)
(** * Skipping and short notes                                             *)
(* ====================================================================== *)

Lemma frontmatter_load_ok (env : Env) (p text : pystr) (post : Post) (w : World) :
  disk w !! p = Some text → frontmatter_loads env text = Ok post →
  frontmatter_load env p w = (Ok post, w).
Proof. intros Hdisk Hload. unfold frontmatter_load. now rewrite Hdisk, Hload. Qed.

(** C8. A note whose metadata already has the key [glyphstream] is
    skipped: the model is not called, nothing is written, every note is
    as it was, and the one line logged for it has action SKIPPED and an
    empty glyph list. *)
Theorem already_processed_note_skipped (env : Env) (llm : Llama)
  (p text : pystr) (post : Post) (w : World) :
  disk w !! p = Some text →
  frontmatter_loads env text = Ok post →
  dict_contains (str "glyphstream") (metadata post) = true →
  ∃ w' e,
    process_note env llm p w = (Ok tt, w') ∧
    llm_requests w' = llm_requests w ∧
    disk w' = disk w ∧
    log_file w' = Some (log_lines w ++ [e]) ∧
    file e = path_name p ∧ action e = SKIPPED ∧ glyphs e = [] ∧ error e = None.
Proof.
  intros Hdisk Hload Hkey.
  destruct (log_assignment_run env (path_name p) [] SKIPPED None w)
    as (w' & Hlog & [(e & He & Hf & Ha & Hg & Herr) D R _]).
  exists w', e. split; [|now repeat split].
  unfold process_note, process_note_body. apply try_ok.
  erewrite bind_ok by (eapply frontmatter_load_ok; eauto).
  now rewrite Hkey.
Qed.

Lemma already_processed_note_skipped_witness :
  disk Fixture.world_marked !! Fixture.note_path = Some Fixture.marked_text ∧
  frontmatter_loads Fixture.env Fixture.marked_text
    = Ok {| metadata := [(str "glyphstream", VList [VStr (str "x")])];
            post_content := Fixture.long_body |} ∧
  ∃ w' e,
    process_note Fixture.env Fixture.llm Fixture.note_path Fixture.world_marked
      = (Ok tt, w') ∧
    llm_requests w' = llm_requests Fixture.world_marked ∧
    disk w' = disk Fixture.world_marked ∧
    action e = SKIPPED ∧ glyphs e = [] ∧
    log_file w' = Some (log_lines Fixture.world_marked ++ [e]).
Proof.
  assert (Hdisk : disk Fixture.world_marked !! Fixture.note_path
                  = Some Fixture.marked_text) by (vm_compute; reflexivity).
  assert (Hload : frontmatter_loads Fixture.env Fixture.marked_text
                  = Ok {| metadata := [(str "glyphstream", VList [VStr (str "x")])];
                          post_content := Fixture.long_body |})
    by (vm_compute; reflexivity).
  split; [exact Hdisk|]. split; [exact Hload|].
  destruct (already_processed_note_skipped Fixture.env Fixture.llm Fixture.note_path
              Fixture.marked_text _ Fixture.world_marked Hdisk Hload eq_refl)
    as (w' & e & Hrun & Hreq & Hd & Hlog & _ & Ha & Hg & _).
  exists w', e. now repeat split.
Defined.

Lemma model_failure_gives_empty_stream_witness :
  50 ≤ length Fixture.long_body ∧
  (Fixture.llm_timing_out (llm_requests Fixture.world)
     (completion_messages Fixture.long_body true) ≫= response_text)
    = Raise (Exn (str "TimeoutError") (str "model did not answer")) ∧
  ∃ w', llm_assign_glyphs Fixture.llm_timing_out Fixture.long_body true Fixture.world
          = (Ok [], w') ∧
        llm_requests w' = llm_requests Fixture.world
                          ++ [completion_messages Fixture.long_body true] ∧
        log_file w' = log_file Fixture.world ∧ disk w' = disk Fixture.world.
Proof.
  assert (Hlen : 50 ≤ length Fixture.long_body) by (vm_compute; lia).
  split; [exact Hlen|]. split; [reflexivity|].
  exact (model_failure_gives_empty_stream Fixture.llm_timing_out Fixture.long_body
           true Fixture.world _ Hlen eq_refl).
Defined.

(** A response without the expected shape is a failure of the same kind:
    here [choices] is an empty list, and indexing it raises. *)
Example malformed_response_gives_empty_stream :
  (llm_assign_glyphs Fixture.llm_malformed Fixture.long_body false Fixture.world).1
    = Ok [].
Proof. vm_compute. reflexivity. Qed.

(* ====================================================================== *)
(** * Deriving the stream kind                                             *)
(* ====================================================================== *)

Lemma py_startswith_spec (needle hay : pystr) :
  py_startswith hay needle = true ↔ ∃ suffix, hay = needle ++ suffix.
Proof.
  revert hay. induction needle as [|n needle IH]; intros [|h hay]; simpl.
  - split; [intros _; now exists [] | reflexivity].
  - split; [intros _; now exists (h :: hay) | reflexivity].
  - split; [discriminate | intros [suffix H]; discriminate].
  - rewrite andb_true_iff, N.eqb_eq, IH. split.
    + intros [-> [suffix ->]]. now exists suffix.
    + intros [suffix [= -> ->]]. split; [reflexivity | now exists suffix].
Qed.

Lemma py_str_contains_spec (needle hay : pystr) :
  py_str_contains hay needle = true ↔
  ∃ before after, hay = before ++ needle ++ after.
Proof.
  induction hay as [|h hay IH]; cbn [py_str_contains];
    rewrite orb_true_iff, py_startswith_spec.
  - split.
    + intros [[suffix H]|H]; [now exists [], suffix | discriminate].
    + intros (before & after & H). left. exists after.
      destruct before; [exact H | discriminate].
  - rewrite IH. split.
    + intros [[suffix H]|(before & after & H)]; [now exists [], suffix|].
      exists (h :: before), after. now rewrite H.
    + intros (before & after & H). destruct before as [|b before].
      * left. now exists after.
      * right. injection H as -> ->. now exists before, after.
Qed.

(** C10. The stream kind comes from Python's [in] on whatever the [tags]
    key holds.  When it holds a string, the note is shared exactly when
    [shared_experience] occurs in that string as a substring, as it does
    in [my_shared_experiences]; a note without a [tags] key is
    personal. *)
Theorem stream_kind_from_tags (post : Post) :
  (∀ tags, dict_get (str "tags") (metadata post) = Some (VStr tags) →
     ∃ is_personal,
       stream_is_personal post = Ok is_personal ∧
       (is_personal = false ↔
        ∃ before after, tags = before ++ str "shared_experience" ++ after)) ∧
  (dict_get (str "tags") (metadata post) = None →
     stream_is_personal post = Ok true) ∧
  (∀ body, stream_is_personal
             {| metadata := [(str "tags", VStr (str "my_shared_experiences"))];
                post_content := body |} = Ok false).
Proof.
  split; [|split].
  - intros tags Htags. unfold stream_is_personal, tags_of. rewrite Htags. simpl.
    eexists. split; [reflexivity|].
    rewrite negb_false_iff. apply py_str_contains_spec.
  - intros Hnone. unfold stream_is_personal, tags_of. now rewrite Hnone.
  - intros body. vm_compute. reflexivity.
Qed.

Lemma stream_kind_from_tags_witness :
  let post := {| metadata := [(str "title", VStr (str "Trip"));
                              (str "tags", VStr (str "shared_experience, travel"))];
                 post_content := Fixture.long_body |} in
  dict_get (str "tags") (metadata post) = Some (VStr (str "shared_experience, travel")) ∧
  stream_is_personal post = Ok false.
Proof.
  cbv zeta. split; [vm_compute; reflexivity|].
  destruct (proj1 (stream_kind_from_tags
                     {| metadata := [(str "title", VStr (str "Trip"));
                                     (str "tags", VStr (str "shared_experience, travel"))];
                        post_content := Fixture.long_body |})
              (str "shared_experience, travel") eq_refl)
    as (is_personal & Hrun & Hiff).
  rewrite Hrun. f_equal. apply Hiff. now exists [], (str ", travel").
Defined.


(* ====================================================================== *)
(** * Trimming                                                             *)
(* ====================================================================== *)

Lemma py_lstrip_blank (front s : pystr) :
  is_blank front = true → py_lstrip (front ++ s) = py_lstrip s.
Proof.
  unfold is_blank. induction front as [|c front IH]; simpl; [reflexivity|].
  intros [Hc Hfront]%andb_true_iff. rewrite Hc. now apply IH.
Qed.

Lemma py_lstrip_nil_blank (s : pystr) : py_lstrip s = [] → is_blank s = true.
Proof.
  unfold is_blank. induction s as [|c s IH]; simpl; [reflexivity|].
  destruct (py_isspace c); [exact IH | discriminate].
Qed.

Lemma py_lstrip_app (s t : pystr) :
  py_lstrip s ≠ [] → py_lstrip (s ++ t) = py_lstrip s ++ t.
Proof.
  induction s as [|c s IH]; simpl; [congruence|].
  destruct (py_isspace c); [exact IH | reflexivity].
Qed.

Lemma is_blank_app (s t : pystr) :
  is_blank (s ++ t) = is_blank s && is_blank t.
Proof. unfold is_blank. apply forallb_app. Qed.

Lemma is_blank_rev (s : pystr) : is_blank (rev s) = is_blank s.
Proof.
  induction s as [|c s IH]; [reflexivity|].
  simpl rev. rewrite is_blank_app, IH. unfold is_blank. simpl.
  rewrite andb_true_r. apply andb_comm.
Qed.

Lemma py_rstrip_blank (s back : pystr) :
  is_blank back = true → py_rstrip (s ++ back) = py_rstrip s.
Proof.
  intros Hback. unfold py_rstrip. rewrite rev_app_distr.
  rewrite py_lstrip_blank; [reflexivity | now rewrite is_blank_rev].
Qed.

Lemma py_strip_pads (g padded : pystr) :
  pads g padded → py_strip padded = py_strip g.
Proof.
  intros (front & back & Hfront & Hback & ->). unfold py_strip.
  rewrite py_lstrip_blank by exact Hfront.
  destruct (py_lstrip g) as [|c rest] eqn:Hg.
  - apply py_lstrip_nil_blank in Hg.
    assert (Hall : is_blank (g ++ back) = true) by now rewrite is_blank_app, Hg, Hback.
    unfold is_blank in Hall.
    assert (Hnil : py_lstrip (g ++ back) = []).
    { clear -Hall. induction (g ++ back) as [|c s IH]; simpl in *; [reflexivity|].
      apply andb_true_iff in Hall as [Hc Hs]. rewrite Hc. now apply IH. }
    now rewrite Hnil.
  - rewrite py_lstrip_app by (rewrite Hg; discriminate).
    rewrite Hg. now apply py_rstrip_blank.
Qed.

(* ====================================================================== *)
(** * More on the response validator                                       *)
(* ====================================================================== *)

(** X1. Whitespace around a token never matters: two token lists that
    differ only by whitespace added in front of and behind their tokens
    validate to the same stream. *)
Theorem validate_glyphstream_ignores_padding
  (glyphs padded : list pystr) (is_personal : bool) :
  Forall2 pads glyphs padded →
  validate_glyphstream padded is_personal = validate_glyphstream glyphs is_personal.
Proof.
  intros Hpad.
  assert (Hvalid : valid_glyphs padded = valid_glyphs glyphs).
  { induction Hpad as [|g g' glyphs padded Hg _ IH]; [reflexivity|].
    simpl. rewrite (py_strip_pads _ _ Hg), IH. reflexivity. }
  unfold validate_glyphstream. now rewrite Hvalid.
Qed.

Lemma validate_glyphstream_ignores_padding_witness :
  Forall2 pads [glyph_recursion; glyph_eternal]
    [str " " ++ glyph_recursion ++ []; (9%N :: nl) ++ glyph_eternal ++ str "  "] ∧
  validate_glyphstream
    [str " " ++ glyph_recursion ++ []; (9%N :: nl) ++ glyph_eternal ++ str "  "] true
  = validate_glyphstream [glyph_recursion; glyph_eternal] true.
Proof.
  assert (H : Forall2 pads [glyph_recursion; glyph_eternal]
                [str " " ++ glyph_recursion ++ [];
                 (9%N :: nl) ++ glyph_eternal ++ str "  "]).
  { repeat constructor.
    - exists (str " "), []. now repeat split.
    - exists (9%N :: nl), (str "  "). now repeat split. }
  split; [exact H | exact (validate_glyphstream_ignores_padding _ _ true H)].
Defined.

Lemma lexicon_keys_trimmed (g : pystr) : g ∈ GLYPH_LEXICON.*1 → py_strip g = g.
Proof.
  revert g. apply Forall_forall, (bool_decide_unpack _). vm_compute. exact I.
Qed.

Lemma valid_glyphs_of_keys (gs : list pystr) :
  (∀ g, g ∈ gs → g ∈ GLYPH_LEXICON.*1) → valid_glyphs gs = gs.
Proof.
  induction gs as [|g gs IH]; intros Hkeys; [reflexivity|].
  assert (Hg : g ∈ GLYPH_LEXICON.*1) by (apply Hkeys; left).
  simpl. rewrite (lexicon_keys_trimmed g Hg).
  rewrite (proj2 (dict_get_elem_of g GLYPH_LEXICON) Hg).
  f_equal. apply IH. intros g' Hg'. apply Hkeys. now right.
Qed.

(** X2. When the valid tokens are pairwise distinct, the shared invariant
    holds: a shared stream that is not empty contains a permission-gated
    glyph.  (The lexicon has seven symbols, so nothing is cut off.) *)
Theorem shared_stream_of_distinct_tokens (glyphs : list pystr) :
  NoDup (valid_glyphs glyphs) →
  validate_glyphstream glyphs false ≠ [] →
  ∃ g, g ∈ validate_glyphstream glyphs false ∧ g ∈ permission_glyphs.
Proof.
  intros Hnd Hne.
  assert (Hlen : length (valid_glyphs glyphs) ≤ 7).
  { change 7 with (length (GLYPH_LEXICON.*1)).
    apply submseteq_length, NoDup_submseteq; [exact Hnd|].
    intros g. apply valid_glyphs_in_lexicon. }
  destruct (shared_stream_gate_passed glyphs Hne) as (g & Hin & Hperm).
  exists g. split; [|exact Hperm].
  revert Hne. unfold validate_glyphstream. simpl.
  destruct (existsb is_permission_glyph (valid_glyphs glyphs)); simpl; [|congruence].
  intros _. now rewrite take_ge.
Qed.

Lemma shared_stream_of_distinct_tokens_witness :
  NoDup (valid_glyphs [glyph_paradox; str "?"; glyph_threshold]) ∧
  validate_glyphstream [glyph_paradox; str "?"; glyph_threshold] false ≠ [] ∧
  ∃ g, g ∈ validate_glyphstream [glyph_paradox; str "?"; glyph_threshold] false ∧
       g ∈ permission_glyphs.
Proof.
  assert (Hnd : NoDup (valid_glyphs [glyph_paradox; str "?"; glyph_threshold]))
    by (apply (bool_decide_unpack _); vm_compute; exact I).
  assert (Hne : validate_glyphstream [glyph_paradox; str "?"; glyph_threshold] false
                ≠ []) by (vm_compute; discriminate).
  split; [exact Hnd|]. split; [exact Hne|].
  exact (shared_stream_of_distinct_tokens _ Hnd Hne).
Defined.

(** X3. A personal stream is a fixed point of the validator: validating
    again what the validator returned for a personal note gives the same
    stream. *)
Theorem validate_personal_idempotent (glyphs : list pystr) :
  validate_glyphstream (validate_glyphstream glyphs true) true
  = validate_glyphstream glyphs true.
Proof.
  assert (Hkeys : ∀ g, g ∈ validate_glyphstream glyphs true → g ∈ GLYPH_LEXICON.*1).
  { intros g Hg. eapply valid_glyphs_in_lexicon, validate_glyphstream_sublist, Hg. }
  unfold validate_glyphstream at 1. simpl.
  rewrite (valid_glyphs_of_keys _ Hkeys).
  unfold validate_glyphstream. simpl. apply take_take.
Qed.

(** X4. Tokens none of which is, once trimmed, a symbol of the lexicon
    give the empty stream for both kinds; so does the empty token list. *)
Theorem no_valid_token_gives_empty_stream (glyphs : list pystr) (is_personal : bool) :
  (∀ g, g ∈ glyphs → py_strip g ∉ GLYPH_LEXICON.*1) →
  validate_glyphstream glyphs is_personal = [].
Proof.
  intros Hnone.
  assert (Hvalid : valid_glyphs glyphs = []).
  { induction glyphs as [|g glyphs IH]; [reflexivity|]. simpl.
    destruct (dict_contains (py_strip g) GLYPH_LEXICON) eqn:Hin.
    - apply dict_get_elem_of in Hin. destruct (Hnone g); [left | exact Hin].
    - apply IH. intros g' Hg'. apply Hnone. now right. }
  unfold validate_glyphstream. rewrite Hvalid.
  destruct (negb is_personal && _); [reflexivity | apply take_nil].
Qed.

Lemma no_valid_token_gives_empty_stream_witness :
  (∀ g, g ∈ [[]; str "paradox"; str "I choose: none"] →
        py_strip g ∉ GLYPH_LEXICON.*1) ∧
  validate_glyphstream [[]; str "paradox"; str "I choose: none"] false = [].
Proof.
  assert (H : ∀ g, g ∈ [[]; str "paradox"; str "I choose: none"] →
                   py_strip g ∉ GLYPH_LEXICON.*1).
  { apply Forall_forall, (bool_decide_unpack _). vm_compute. exact I. }
  split; [exact H | exact (no_valid_token_gives_empty_stream _ false H)].
Defined.

(* ====================================================================== *)
(** * More on the glyph assigner                                           *)
(* ====================================================================== *)

Lemma py_split_on_whole (sep : N) (s : pystr) :
  sep ∉ s → py_split_on sep s = [s].
Proof.
  induction s as [|c s IH]; intros Hsep; [reflexivity|]. simpl.
  destruct (c =? sep)%N eqn:Hc.
  - apply N.eqb_eq in Hc. subst. destruct Hsep. left.
  - rewrite IH; [reflexivity|]. intros H. apply Hsep. now right.
Qed.

Lemma py_split_on_field (sep : N) (g s : pystr) :
  sep ∉ g → py_split_on sep (g ++ sep :: s) = g :: py_split_on sep s.
Proof.
  induction g as [|c g IH]; intros Hsep; simpl.
  - now rewrite N.eqb_refl.
  - destruct (c =? sep)%N eqn:Hc.
    + apply N.eqb_eq in Hc. subst. destruct Hsep. left.
    + rewrite IH; [reflexivity|]. intros H. apply Hsep. now right.
Qed.

Lemma lexicon_keys_without_comma (g : pystr) : g ∈ GLYPH_LEXICON.*1 → comma ∉ g.
Proof.
  revert g. apply Forall_forall, (bool_decide_unpack _). vm_compute. exact I.
Qed.

Lemma valid_glyphs_cons_key (g : pystr) (rest : list pystr) :
  py_strip g ∈ GLYPH_LEXICON.*1 →
  valid_glyphs (g :: rest) = py_strip g :: valid_glyphs rest.
Proof.
  intros Hg. cbn [valid_glyphs].
  now rewrite (proj2 (dict_get_elem_of (py_strip g) GLYPH_LEXICON) Hg).
Qed.

Lemma valid_glyphs_split_join (gs : list pystr) (front : pystr) :
  (∀ g, g ∈ gs → g ∈ GLYPH_LEXICON.*1) → gs ≠ [] →
  is_blank front = true → comma ∉ front →
  valid_glyphs (py_split_on comma (front ++ py_join (str ", ") gs)) = gs.
Proof.
  revert front. induction gs as [|g gs IH]; intros front Hkeys Hne Hblank Hfront;
    [congruence|].
  assert (Hg : g ∈ GLYPH_LEXICON.*1) by (apply Hkeys; left).
  assert (Hfg : comma ∉ front ++ g).
  { intros [H|H]%elem_of_app; [now apply Hfront|].
    now apply (lexicon_keys_without_comma g Hg). }
  assert (Hstrip : py_strip (front ++ g) = g).
  { rewrite (py_strip_pads g (front ++ g)); [now apply lexicon_keys_trimmed|].
    exists front, []. rewrite app_nil_r. now repeat split. }
  destruct gs as [|g2 gs].
  - cbn [py_join]. rewrite py_split_on_whole by exact Hfg.
    rewrite valid_glyphs_cons_key by now rewrite Hstrip.
    now rewrite Hstrip.
  - change (py_join (str ", ") (g :: g2 :: gs))
      with (g ++ comma :: (str " " ++ py_join (str ", ") (g2 :: gs))).
    rewrite app_assoc, py_split_on_field by exact Hfg.
    rewrite valid_glyphs_cons_key by now rewrite Hstrip.
    rewrite Hstrip. f_equal.
    apply (IH (str " ")); [|discriminate|reflexivity|].
    + intros g' Hg'. apply Hkeys. now right.
    + intros H. apply elem_of_cons in H as [H|H]; [discriminate | inversion H].
Qed.

(** X5. The answer format the prompt asks for is read back exactly: when
    the text of the completion is lexicon symbols joined by a comma and a
    space, the assigner returns what the validator makes of those very
    symbols. *)
Theorem comma_separated_reply_is_read_back (llm : Llama) (text : pystr)
  (is_personal : bool) (w : World) (response : value) (gs : list pystr) :
  50 ≤ length text →
  (∀ g, g ∈ gs → g ∈ GLYPH_LEXICON.*1) →
  llm (llm_requests w) (completion_messages text is_personal) = Ok response →
  response_text response = Ok (py_join (str ", ") gs) →
  (llm_assign_glyphs llm text is_personal w).1
  = Ok (validate_glyphstream gs is_personal).
Proof.
  intros Hlen Hkeys Hreply Htext. unfold llm_assign_glyphs.
  destruct (length text <? 50) eqn:Hshort; [apply Nat.ltb_lt in Hshort; lia|].
  unfold try_except, mbind, M_bind, create_chat_completion, lift.
  rewrite Hreply. cbn -[validate_glyphstream py_split_on py_join str].
  rewrite Htext. cbn -[validate_glyphstream py_split_on py_join str]. f_equal.
  assert (Hvalid : valid_glyphs (py_split_on comma (py_join (str ", ") gs))
                   = valid_glyphs gs).
  { rewrite (valid_glyphs_of_keys gs Hkeys). destruct gs as [|g gs].
    - vm_compute. reflexivity.
    - apply (valid_glyphs_split_join (g :: gs) []);
        [exact Hkeys | discriminate | reflexivity | intros H; inversion H]. }
  unfold validate_glyphstream. now rewrite Hvalid.
Qed.

Lemma comma_separated_reply_is_read_back_witness :
  50 ≤ length Fixture.long_body ∧
  response_text (Fixture.reply (glyph_recursion ++ str ", " ++ glyph_eternal))
  = Ok (py_join (str ", ") [glyph_recursion; glyph_eternal]) ∧
  (llm_assign_glyphs Fixture.llm Fixture.long_body true Fixture.world).1
  = Ok (validate_glyphstream [glyph_recursion; glyph_eternal] true).
Proof.
  assert (Hlen : 50 ≤ length Fixture.long_body) by (vm_compute; lia).
  assert (Htext : response_text
                    (Fixture.reply (glyph_recursion ++ str ", " ++ glyph_eternal))
                  = Ok (py_join (str ", ") [glyph_recursion; glyph_eternal]))
    by (vm_compute; reflexivity).
  split; [exact Hlen|]. split; [exact Htext|].
  apply (comma_separated_reply_is_read_back Fixture.llm Fixture.long_body true
           Fixture.world
           (Fixture.reply (glyph_recursion ++ str ", " ++ glyph_eternal))
           [glyph_recursion; glyph_eternal] Hlen);
    [|reflexivity|exact Htext].
  apply Forall_forall, (bool_decide_unpack _). vm_compute. exact I.
Defined.

Lemma validate_glyphstream_length (glyphs : list pystr) (is_personal : bool) :
  length (validate_glyphstream glyphs is_personal) ≤ max_glyphs is_personal.
Proof.
  unfold validate_glyphstream.
  destruct (negb is_personal && _); [simpl; lia|].
  rewrite length_take. lia.
Qed.

(** X6. Whatever the model does (answers, raises, or answers something
    that cannot be read), the assigner hands its caller a stream of at
    most 3 (personal) or 7 (shared) symbols, all of them in the lexicon. *)
Theorem assigner_output_within_policy (llm : Llama) (text : pystr)
  (is_personal : bool) (w : World) :
  ∃ gs w', llm_assign_glyphs llm text is_personal w = (Ok gs, w') ∧
           length gs ≤ max_glyphs is_personal ∧
           ∀ g, g ∈ gs → g ∈ GLYPH_LEXICON.*1.
Proof.
  assert (Hnil : length (@nil pystr) ≤ max_glyphs is_personal ∧
                 ∀ g : pystr, g ∈ @nil pystr → g ∈ GLYPH_LEXICON.*1).
  { split; [simpl; lia | intros g H; inversion H]. }
  unfold llm_assign_glyphs. destruct (length text <? 50).
  { now exists [], w. }
  unfold try_except, mbind, M_bind, create_chat_completion, lift, print, modify.
  destruct (llm (llm_requests w) (completion_messages text is_personal))
    as [response|e]; simpl.
  - destruct (response_text response) as [raw|e]; simpl.
    + eexists _, _. split; [reflexivity|]. split.
      * apply validate_glyphstream_length.
      * intros g Hg.
        eapply valid_glyphs_in_lexicon, validate_glyphstream_sublist, Hg.
    + eexists _, _. split; [reflexivity | exact Hnil].
  - eexists _, _. split; [reflexivity | exact Hnil].
Qed.

(** X7. Only the first 3000 characters of a note reach the model: two
    bodies of at least 50 characters that agree on their first 3000 are
    assigned the same stream, through the same request. *)
Theorem assigner_reads_first_3000 (llm : Llama) (text1 text2 : pystr)
  (is_personal : bool) (w : World) :
  50 ≤ length text1 → 50 ≤ length text2 →
  take 3000 text1 = take 3000 text2 →
  llm_assign_glyphs llm text1 is_personal w
  = llm_assign_glyphs llm text2 is_personal w.
Proof.
  intros H1 H2 Hsame. unfold llm_assign_glyphs.
  destruct (length text1 <? 50) eqn:Hs1; [apply Nat.ltb_lt in Hs1; lia|].
  destruct (length text2 <? 50) eqn:Hs2; [apply Nat.ltb_lt in Hs2; lia|].
  unfold completion_messages. now rewrite Hsame.
Qed.

Lemma assigner_reads_first_3000_witness :
  50 ≤ length Scenario.body1 ∧ 50 ≤ length Scenario.body2 ∧
  take 3000 Scenario.body1 = take 3000 Scenario.body2 ∧
  Scenario.body1 ≠ Scenario.body2 ∧
  llm_assign_glyphs Fixture.llm Scenario.body1 false Fixture.world
  = llm_assign_glyphs Fixture.llm Scenario.body2 false Fixture.world.
Proof.
  assert (H1 : 50 ≤ length Scenario.body1) by (apply Nat.leb_le; vm_compute; reflexivity).
  assert (H2 : 50 ≤ length Scenario.body2) by (apply Nat.leb_le; vm_compute; reflexivity).
  assert (H3 : take 3000 Scenario.body1 = take 3000 Scenario.body2)
    by (vm_compute; reflexivity).
  split; [exact H1|]. split; [exact H2|]. split; [exact H3|]. split.
  - intros Heq. apply (f_equal length) in Heq. vm_compute in Heq. discriminate.
  - exact (assigner_reads_first_3000 Fixture.llm _ _ false Fixture.world H1 H2 H3).
Defined.

(* ====================================================================== *)
(** * Dictionaries                                                         *)
(* ====================================================================== *)

Lemma dict_get_set_eq {V} (k : pystr) (v : V) (d : list (pystr * V)) :
  dict_get k (dict_set k v d) = Some v.
Proof.
  induction d as [|[k' v'] d IH]; simpl.
  - now rewrite bool_decide_eq_true_2.
  - case_bool_decide as Hk; simpl.
    + now rewrite bool_decide_eq_true_2.
    + now rewrite bool_decide_eq_false_2.
Qed.

Lemma dict_get_set_ne {V} (k k' : pystr) (v : V) (d : list (pystr * V)) :
  k ≠ k' → dict_get k' (dict_set k v d) = dict_get k' d.
Proof.
  intros Hne. induction d as [|[k0 v0] d IH]; simpl.
  - now rewrite bool_decide_eq_false_2 by congruence.
  - case_bool_decide as Hk; simpl.
    + subst k0. now rewrite !bool_decide_eq_false_2 by congruence.
    + now rewrite IH.
Qed.

Lemma dict_get_None {V} (k : pystr) (d : list (pystr * V)) :
  dict_get k d = None ↔ k ∉ d.*1.
Proof.
  rewrite <- (dict_get_elem_of k d). unfold dict_contains.
  destruct (dict_get k d); split; congruence.
Qed.

Lemma dict_set_fresh {V} (k : pystr) (v : V) (d : list (pystr * V)) :
  k ∉ d.*1 → dict_set k v d = d ++ [(k, v)].
Proof.
  induction d as [|[k' v'] d IH]; intros Hk; [reflexivity|]. simpl.
  rewrite bool_decide_eq_false_2.
  - f_equal. apply IH. intros H. apply Hk. now right.
  - intros ->. apply Hk. left.
Qed.

(* ====================================================================== *)
(** * The metadata that is written                                         *)
(* ====================================================================== *)

Lemma prepare_metadata_plain (env : Env) (md acc : list (pystr * value)) :
  NoDup (acc.*1 ++ md.*1) →
  Forall (λ kv, is_plain kv.2 = true) md →
  prepare_metadata env md acc = Ok (acc ++ md).
Proof.
  revert acc. induction md as [|[key v] md IH]; intros acc Hnd Hplain.
  - now rewrite app_nil_r.
  - apply Forall_cons in Hplain as [Hv Hplain]. simpl in Hv.
    cbn [prepare_metadata]. rewrite Hv.
    rewrite fmap_cons in Hnd. simpl in Hnd.
    assert (Hfresh : key ∉ acc.*1).
    { apply NoDup_app in Hnd as (_ & Hdisj & _). intros H.
      apply (Hdisj key H). left. }
    rewrite (dict_set_fresh key v acc Hfresh).
    rewrite IH; [now rewrite <- app_assoc | | exact Hplain].
    rewrite fmap_app. simpl. now rewrite <- app_assoc.
Qed.

(** X9. Metadata whose values are all strings, numbers, booleans or lists
    is handed to the YAML dump as it is, key for key and in its order: no
    value goes through the safe round trip, not even a dictionary held in
    a list. *)
Theorem plain_metadata_is_dumped_as_is (env : Env) (md : list (pystr * value)) :
  NoDup md.*1 →
  Forall (λ kv, is_plain kv.2 = true) md →
  prepare_metadata env md [] = Ok md.
Proof.
  intros Hnd Hplain. exact (prepare_metadata_plain env md [] Hnd Hplain).
Qed.

Lemma plain_metadata_is_dumped_as_is_witness :
  NoDup Scenario.plain_metadata.*1 ∧
  Forall (λ kv, is_plain kv.2 = true) Scenario.plain_metadata ∧
  prepare_metadata Fixture.env Scenario.plain_metadata [] = Ok Scenario.plain_metadata.
Proof.
  assert (Hnd : NoDup Scenario.plain_metadata.*1)
    by (apply (bool_decide_unpack _); vm_compute; exact I).
  assert (Hplain : Forall (λ kv, is_plain kv.2 = true) Scenario.plain_metadata)
    by (repeat constructor).
  split; [exact Hnd|]. split; [exact Hplain|].
  exact (plain_metadata_is_dumped_as_is Fixture.env _ Hnd Hplain).
Defined.

(** X10. The metadata of an updated note holds the four assignment keys
    with the glyph list, the glyph definitions, the time stamp and the
    stream type; every other key of the note keeps the value it had. *)
Theorem enriched_metadata_lookup (post : Post) (is_personal : bool)
  (gs : list pystr) (gm : list (pystr * value)) (last_processed : pystr) :
  let md := enriched_metadata post is_personal gs gm last_processed in
  dict_get (str "glyphstream") md = Some (VList (map VStr gs)) ∧
  dict_get (str "glyph_metadata") md = Some (VDict gm) ∧
  dict_get (str "last_processed") md = Some (VStr last_processed) ∧
  dict_get (str "stream_type") md
    = Some (VStr (if is_personal then str "personal" else str "shared")) ∧
  (∀ key, key ∉ assignment_keys → dict_get key md = dict_get key (metadata post)).
Proof.
  cbv zeta. unfold enriched_metadata, dict_update. cbn [fold_left fst snd].
  repeat split.
  - rewrite !dict_get_set_ne by (vm_compute; discriminate). apply dict_get_set_eq.
  - rewrite !dict_get_set_ne by (vm_compute; discriminate). apply dict_get_set_eq.
  - rewrite !dict_get_set_ne by (vm_compute; discriminate). apply dict_get_set_eq.
  - apply dict_get_set_eq.
  - intros key Hkey.
    rewrite !dict_get_set_ne; [reflexivity|..];
      intros <-; apply Hkey; unfold assignment_keys;
      repeat (first [left | right]).
Qed.

Lemma build_glyph_metadata_run (gs : list pystr) (acc : list (pystr * value)) :
  (∀ g, g ∈ gs → g ∈ GLYPH_LEXICON.*1) →
  ∃ gm, build_glyph_metadata gs acc = Ok gm ∧
    (∀ g, g ∈ gs → ∃ data, dict_get g GLYPH_LEXICON = Some data ∧
                            dict_get g gm = Some (definition_of data)) ∧
    (∀ g, g ∉ gs → dict_get g gm = dict_get g acc).
Proof.
  revert acc. induction gs as [|g gs IH]; intros acc Hkeys.
  - exists acc. split; [reflexivity|]. split; [intros g H; inversion H | reflexivity].
  - assert (Hg : g ∈ GLYPH_LEXICON.*1) by (apply Hkeys; left).
    apply dict_get_elem_of in Hg. unfold dict_contains in Hg.
    destruct (dict_get g GLYPH_LEXICON) as [data|] eqn:Hdata; [|discriminate].
    cbn [build_glyph_metadata]. unfold lexicon_lookup. rewrite Hdata.
    cbn [mbind result_bind].
    destruct (IH (dict_set g (definition_of data) acc)) as (gm & Hrun & Hin & Hout).
    { intros g' Hg'. apply Hkeys. now right. }
    exists gm. split; [exact Hrun|]. split.
    + intros g' Hg'. destruct (decide (g' ∈ gs)) as [Hrest|Hrest]; [now apply Hin|].
      apply elem_of_cons in Hg' as [->|Hg']; [|contradiction].
      exists data. split; [exact Hdata|].
      rewrite (Hout g Hrest). apply dict_get_set_eq.
    + intros g' Hg'. rewrite Hout.
      * apply dict_get_set_ne. intros ->. apply Hg'. left.
      * intros H. apply Hg'. now right.
Qed.

(** X11. Building the glyph metadata for a stream the validator returned
    never fails on a missing symbol: every glyph of the stream is found
    under its symbol, with its definition from the lexicon, and no other
    key is present. *)
Theorem glyph_metadata_of_validated_stream (glyphs : list pystr) (is_personal : bool) :
  ∃ gm, build_glyph_metadata (validate_glyphstream glyphs is_personal) [] = Ok gm ∧
    (∀ g, g ∈ validate_glyphstream glyphs is_personal →
       ∃ data, dict_get g GLYPH_LEXICON = Some data ∧
               dict_get g gm = Some (definition_of data)) ∧
    (∀ g, g ∉ validate_glyphstream glyphs is_personal → dict_get g gm = None).
Proof.
  destruct (build_glyph_metadata_run (validate_glyphstream glyphs is_personal) [])
    as (gm & Hrun & Hin & Hout).
  { intros g Hg. eapply valid_glyphs_in_lexicon, validate_glyphstream_sublist, Hg. }
  exists gm. split; [exact Hrun|]. split; [exact Hin|].
  intros g Hg. now rewrite (Hout g Hg).
Qed.

(* ====================================================================== *)
(** * More on the note writer                                              *)
(* ====================================================================== *)

Lemma writer_frame_refl (p : pystr) (w : World) : writer_frame p w w.
Proof. now split. Qed.

Lemma writer_frame_trans (p : pystr) (w1 w2 w3 : World) :
  writer_frame p w1 w2 → writer_frame p w2 w3 → writer_frame p w1 w3.
Proof.
  intros [L1 R1 P1 S1 C1 D1] [L2 R2 P2 S2 C2 D2]. split; try congruence.
  intros q Hq. rewrite D2, D1; auto.
Qed.

Lemma f_write_frame (env : Env) (p text : pystr) :
  keeps (writer_frame p) (f_write env p text).
Proof.
  intros w. unfold f_write.
  destruct (device_limit env p) as [[limit e]|];
    [destruct (limit <? _)|]; simpl; split; try reflexivity;
    intros q Hq; simpl; now rewrite lookup_insert_ne.
Qed.

Lemma open_w_frame (env : Env) (p : pystr) : keeps (writer_frame p) (open_w env p).
Proof.
  intros w. unfold open_w. destruct (open_fault env p); simpl; split; try reflexivity.
  intros q Hq; simpl; now rewrite lookup_insert_ne.
Qed.

Lemma write_obsidian_file_frame (env : Env) (p : pystr)
  (md : list (pystr * value)) (content : pystr) :
  keeps (writer_frame p) (write_obsidian_file env p md content).
Proof.
  pose proof (writer_frame_refl p) as Hr. pose proof (writer_frame_trans p) as Ht.
  unfold write_obsidian_file.
  apply keeps_try; [exact Ht| |].
  - apply keeps_bind; [exact Ht | now apply keeps_lift |]. intros safe.
    apply keeps_bind; [exact Ht | apply open_w_frame |]. intros _.
    apply keeps_bind; [exact Ht | apply f_write_frame |]. intros _.
    apply keeps_bind; [exact Ht | |].
    { unfold yaml_dump_to. destruct (yaml_dump env safe) as [emitted failure].
      apply keeps_bind; [exact Ht | apply f_write_frame |]. intros _.
      destruct failure; [now apply keeps_throw | now apply keeps_ret]. }
    intros _.
    apply keeps_bind; [exact Ht | apply f_write_frame |]. intros _.
    apply keeps_bind; [exact Ht | apply f_write_frame |]. intros _.
    now apply keeps_ret.
  - intros e. apply keeps_bind; [exact Ht | |].
    + intros w. now split.
    + intros _. now apply keeps_ret.
Qed.

Lemma write_obsidian_file_detail (env : Env) (p : pystr)
  (md : list (pystr * value)) (content : pystr) (w : World) :
  ∃ written w', write_obsidian_file env p md content w = (Ok written, w') ∧
    writer_frame p w w' ∧
    (written = true →
       ∃ safe, prepare_metadata env md [] = Ok safe ∧
               disk w' !! p = Some (new_text env safe content)) ∧
    (written = false → prepare_metadata env md [] = Ok md → open_fault env p = None →
       disk w' !! p ≠ Some (new_text env md content)).
Proof.
  destruct (run_returns _ w (write_obsidian_file_returns env p md content))
    as (written & w' & Hrun).
  exists written, w'. split; [exact Hrun|]. split; [|split].
  - pose proof (write_obsidian_file_frame env p md content w) as H.
    now rewrite Hrun in H.
  - intros ->.
    destruct (prepare_metadata env md []) as [safe|e] eqn:Hprep.
    2: { destruct (write_fails_before_open env p md content w) as (w2 & Hrun2 & _);
           [left; now exists e | congruence]. }
    destruct (open_fault env p) as [e|] eqn:Hopen.
    { destruct (write_fails_before_open env p md content w) as (w2 & Hrun2 & _);
        [right; now exists e | congruence]. }
    destruct (write_after_open env p md safe content w Hprep Hopen)
      as (written & w2 & s & Hrun2 & Hs & _ & Hfull).
    rewrite Hrun in Hrun2. injection Hrun2 as <- <-.
    exists safe. split; [reflexivity|]. now rewrite Hs, Hfull.
  - intros -> Hprep Hopen.
    destruct (write_after_open env p md md content w Hprep Hopen)
      as (written & w2 & s & Hrun2 & Hs & _ & Hshort).
    rewrite Hrun in Hrun2. injection Hrun2 as <- <-.
    rewrite Hs. intros [= ->]. lia.
Qed.

(** X8. The note writer never raises, whatever the YAML library and the
    file system do: it returns a boolean and touches nothing but the note
    it was given (the audit log, the model and every other note are as
    they were).  When it returns [True], the note holds exactly the header
    marker, the dumped metadata, the closing marker, a blank line and the
    trimmed body. *)
Theorem write_obsidian_file_total (env : Env) (p : pystr)
  (md : list (pystr * value)) (content : pystr) (w : World) :
  ∃ written w', write_obsidian_file env p md content w = (Ok written, w') ∧
    log_file w' = log_file w ∧
    llm_requests w' = llm_requests w ∧
    (∀ q, q ≠ p → disk w' !! q = disk w !! q) ∧
    (written = true →
       ∃ safe, prepare_metadata env md [] = Ok safe ∧
               disk w' !! p = Some ((str "---" ++ nl) ++ (yaml_dump env safe).1
                                    ++ (str "---" ++ nl ++ nl) ++ py_strip content)).
Proof.
  destruct (write_obsidian_file_detail env p md content w)
    as (written & w' & Hrun & [L R _ _ _ D] & Htrue & _).
  exists written, w'. split; [exact Hrun|]. split; [exact L|]. split; [exact R|].
  split; [exact D | exact Htrue].
Qed.

(* ====================================================================== *)
(** * More on the note processor                                           *)
(* ====================================================================== *)

Lemma log_assignment_eq (env : Env) filename gl a err (w : World) :
  log_assignment env filename gl a err w
  = (Ok tt, with_line (entry_at env w filename a gl err) w).
Proof. reflexivity. Qed.

Lemma llm_assign_glyphs_detail (llm : Llama) (text : pystr) (is_personal : bool)
  (w : World) :
  ∃ gs w' calls,
    llm_assign_glyphs llm text is_personal w = (Ok gs, w') ∧
    (∀ g, g ∈ gs → g ∈ GLYPH_LEXICON.*1) ∧
    llm_requests w' = llm_requests w ++ calls ∧ length calls ≤ 1 ∧
    disk w' = disk w ∧ log_file w' = log_file w ∧
    processed_files w' = processed_files w ∧ sleeps w' = sleeps w.
Proof.
  assert (Hnil : ∀ g : pystr, g ∈ @nil pystr → g ∈ GLYPH_LEXICON.*1)
    by (intros g H; inversion H).
  unfold llm_assign_glyphs. destruct (length text <? 50).
  { exists [], w, []. rewrite app_nil_r. simpl. repeat split; auto. }
  unfold try_except, mbind, M_bind, create_chat_completion, lift, print, modify.
  destruct (llm (llm_requests w) (completion_messages text is_personal))
    as [response|e]; simpl.
  - destruct (response_text response) as [raw|e]; simpl.
    + eexists _, _, [_]. split; [reflexivity|]. simpl. repeat split; auto.
      intros g Hg. eapply valid_glyphs_in_lexicon, validate_glyphstream_sublist, Hg.
    + eexists _, _, [_]. split; [reflexivity|]. simpl. repeat split; auto.
  - eexists _, _, [_]. split; [reflexivity|]. simpl. repeat split; auto.
Qed.

Lemma update_note_detail (env : Env) (p : pystr) (post : Post) (is_personal : bool)
  (gs : list pystr) (w : World) :
  (∀ g, g ∈ gs → g ∈ GLYPH_LEXICON.*1) →
  ∃ w' e,
    update_note env p post is_personal gs w = (Ok tt, w') ∧
    log_file w' = Some (log_lines w ++ [e]) ∧
    file e = path_name p ∧ glyphs e = gs ∧ error e = None ∧
    (action e = UPDATED ∨ action e = WRITE_FAILED) ∧
    llm_requests w' = llm_requests w ∧
    sleeps w' = sleeps w ∧
    processed_files w'
      = processed_files w + (if bool_decide (action e = UPDATED) then 1 else 0) ∧
    (∀ q, q ≠ p → disk w' !! q = disk w !! q).
Proof.
  intros Hkeys.
  destruct (build_glyph_metadata_run gs [] Hkeys) as (gm & Hbuild & _).
  unfold update_note. rewrite Hbuild. erewrite bind_ok by reflexivity.
  erewrite bind_ok by reflexivity.
  set (w1 := set_clock_reads S w).
  set (md := enriched_metadata _ _ _ _ _).
  destruct (write_obsidian_file_detail env p md (post_content post) w1)
    as (written & w2 & Hrun & [L2 R2 P2 S2 _ D2] & _).
  change (log_file w1) with (log_file w) in L2.
  change (llm_requests w1) with (llm_requests w) in R2.
  change (processed_files w1) with (processed_files w) in P2.
  change (sleeps w1) with (sleeps w) in S2.
  change (disk w1) with (disk w) in D2.
  erewrite bind_ok by exact Hrun.
  destruct written.
  - rewrite (bind_ok _ _ _ _ _ (log_assignment_eq env _ _ _ _ w2)).
    erewrite bind_ok by reflexivity.
    eexists _, (entry_at env w2 (path_name p) UPDATED gs None).
    split; [reflexivity|]. simpl.
    unfold log_lines. rewrite L2, R2, P2, S2.
    repeat split; auto. lia.
  - rewrite log_assignment_eq.
    eexists _, (entry_at env w2 (path_name p) WRITE_FAILED gs None).
    split; [reflexivity|]. simpl.
    unfold log_lines. rewrite L2, R2, P2, S2.
    repeat split; auto.
Qed.

Lemma frontmatter_load_run (env : Env) (p : pystr) (w : World) :
  ∃ r, frontmatter_load env p w = (r, w) ∧
       (∀ post, r = Ok post →
          ∃ text, disk w !! p = Some text ∧ frontmatter_loads env text = Ok post).
Proof.
  unfold frontmatter_load. destruct (disk w !! p) as [text|].
  - eexists. split; [reflexivity|]. intros post Hr. now exists text.
  - eexists. split; [reflexivity|]. discriminate.
Qed.

Ltac finish_note :=
  simpl; unfold log_lines; rewrite ?app_nil_r;
  repeat split; auto; try lia; try congruence.

(** One iteration of the loop, with everything it leaves behind. *)
Lemma process_note_detail (env : Env) (llm : Llama) (p : pystr) (w : World) :
  ∃ w' e calls,
    process_note env llm p w = (Ok tt, w') ∧
    log_file w' = Some (log_lines w ++ [e]) ∧ file e = path_name p ∧
    llm_requests w' = llm_requests w ++ calls ∧
    length calls ≤ (if classified (action e) then 1 else 0) ∧
    sleeps w' = sleeps w + (if classified (action e) then 1 else 0) ∧
    processed_files w'
      = processed_files w + (if bool_decide (action e = UPDATED) then 1 else 0) ∧
    (∀ q, q ≠ p → disk w' !! q = disk w !! q) ∧
    (action e ≠ UPDATED → action e ≠ WRITE_FAILED → disk w' = disk w).
Proof.
  unfold process_note, process_note_body.
  destruct (frontmatter_load_run env p w) as ([post|ex] & Hload & _).
  2: { rewrite (try_raise _ _ w w ex)
         by (erewrite bind_raise by exact Hload; reflexivity).
       rewrite (bind_ok _ _ _ _ _ (log_assignment_eq env _ _ _ _ w)).
       eexists _, (entry_at env w (path_name p) ERROR [] _), [].
       split; [reflexivity|]. finish_note. }
  destruct (dict_contains (str "glyphstream") (metadata post)) eqn:Hkey.
  { rewrite (try_ok _ _ w _ tt)
      by (erewrite bind_ok by exact Hload; rewrite Hkey; apply log_assignment_eq).
    eexists _, (entry_at env w (path_name p) SKIPPED [] None), [].
    split; [reflexivity|]. finish_note. }
  set (w1 := set_console (λ out, out ++ [str "Analyzing: " ++ path_name p]) w).
  destruct (stream_is_personal post) as [is_personal|ex] eqn:Hkind.
  2: { rewrite (try_raise _ _ w w1 ex).
       2: { erewrite bind_ok by exact Hload. rewrite Hkey.
            erewrite bind_ok by reflexivity. rewrite Hkind.
            now erewrite bind_raise by reflexivity. }
       rewrite (bind_ok _ _ _ _ _ (log_assignment_eq env _ _ _ _ w1)).
       eexists _, (entry_at env w1 (path_name p) ERROR [] _), [].
       split; [reflexivity|]. finish_note. }
  destruct (llm_assign_glyphs_detail llm (post_content post) is_personal w1)
    as (gs & w2 & calls & Hassign & Hvalid & R2 & Hcalls & D2 & L2 & P2 & S2).
  change (llm_requests w1) with (llm_requests w) in R2.
  change (disk w1) with (disk w) in D2.
  change (log_file w1) with (log_file w) in L2.
  change (processed_files w1) with (processed_files w) in P2.
  change (sleeps w1) with (sleeps w) in S2.
  destruct gs as [|g gs].
  - rewrite (try_ok _ _ w (set_sleeps S (with_line
               (entry_at env w2 (path_name p) NO_MATCH [] None) w2)) tt).
    2: { erewrite bind_ok by exact Hload. rewrite Hkey.
         erewrite bind_ok by reflexivity. rewrite Hkind.
         erewrite bind_ok by reflexivity. erewrite bind_ok by exact Hassign.
         cbv beta iota.
         now rewrite (bind_ok _ _ _ _ _ (log_assignment_eq env _ _ _ _ w2)). }
    eexists _, (entry_at env w2 (path_name p) NO_MATCH [] None), calls.
    split; [reflexivity|]. simpl. unfold log_lines. rewrite L2, R2, P2, S2, D2.
    repeat split; auto; lia.
  - destruct (update_note_detail env p post is_personal (g :: gs) w2 Hvalid)
      as (w3 & e & Hupd & L3 & Hf & _ & _ & Hact & R3 & S3 & P3 & D3).
    rewrite (try_ok _ _ w (set_sleeps S w3) tt).
    2: { erewrite bind_ok by exact Hload. rewrite Hkey.
         erewrite bind_ok by reflexivity. rewrite Hkind.
         erewrite bind_ok by reflexivity. erewrite bind_ok by exact Hassign.
         cbv beta iota. now erewrite bind_ok by exact Hupd. }
    exists (set_sleeps S w3), e, calls. split; [reflexivity|]. simpl.
    unfold log_lines in *. rewrite L3, L2, R3, R2, S3, S2, P3, P2.
    assert (Hcl : classified (action e) = true) by (destruct Hact as [->| ->]; reflexivity).
    rewrite Hcl. repeat split; auto; try lia.
    + intros q Hq. rewrite D3, D2; auto.
    + intros H1 H2. destruct Hact; contradiction.
Qed.

Lemma classified_lines_cons (e : LogEntry) (es : list LogEntry) :
  classified_lines (e :: es)
  = (if classified (action e) then 1 else 0) + classified_lines es.
Proof.
  unfold classified_lines. rewrite filter_cons.
  destruct (classified (action e)).
  - now rewrite decide_True.
  - now rewrite decide_False.
Qed.

Lemma updated_lines_cons (e : LogEntry) (es : list LogEntry) :
  updated_lines (e :: es)
  = (if bool_decide (action e = UPDATED) then 1 else 0) + updated_lines es.
Proof.
  unfold updated_lines. rewrite filter_cons.
  case_bool_decide as H.
  - now rewrite decide_True.
  - now rewrite decide_False.
Qed.

Lemma updated_lines_le_classified (es : list LogEntry) :
  updated_lines es ≤ classified_lines es ∧ classified_lines es ≤ length es.
Proof.
  induction es as [|e es [IH1 IH2]]; [split; reflexivity|].
  rewrite classified_lines_cons, updated_lines_cons. simpl length.
  case_bool_decide as H.
  - rewrite H. simpl. lia.
  - destruct (classified (action e)); lia.
Qed.

(** The loop over the notes, with everything it leaves behind. *)
Lemma for_each_detail (env : Env) (llm : Llama) (files : list pystr) (w : World) :
  ∃ w' es calls,
    for_each files (process_note env llm) w = (Ok tt, w') ∧
    log_lines w' = log_lines w ++ es ∧
    (is_Some (log_file w) → log_file w' = Some (log_lines w ++ es)) ∧
    file <$> es = path_name <$> files ∧
    llm_requests w' = llm_requests w ++ calls ∧
    length calls ≤ classified_lines es ∧
    sleeps w' = sleeps w + classified_lines es ∧
    processed_files w' = processed_files w + updated_lines es ∧
    (∀ q, q ∉ files → disk w' !! q = disk w !! q).
Proof.
  revert w. induction files as [|p files IH]; intros w.
  - exists w, [], []. rewrite !app_nil_r. repeat split; auto.
    intros [lines Hl]. unfold log_lines. now rewrite Hl.
  - destruct (process_note_detail env llm p w)
      as (w1 & e & calls1 & Hrun & L1 & Hf & R1 & Hc1 & S1 & P1 & D1 & _).
    destruct (IH w1)
      as (w2 & es & calls2 & Hrest & L2 & F2 & Hfiles & R2 & Hc2 & S2 & P2 & D2).
    assert (Hlines : log_lines w1 ++ es = log_lines w ++ e :: es).
    { unfold log_lines at 1. rewrite L1. simpl. now rewrite <- app_assoc. }
    exists w2, (e :: es), (calls1 ++ calls2).
    simpl for_each. erewrite bind_ok by exact Hrun.
    rewrite classified_lines_cons, updated_lines_cons.
    split; [exact Hrest|].
    split; [|split; [|split; [|split; [|split; [|split; [|split]]]]]].
    + now rewrite L2.
    + intros _. rewrite F2; [now rewrite Hlines | now rewrite L1].
    + now rewrite !fmap_cons, Hf, Hfiles.
    + now rewrite R2, R1, <- app_assoc.
    + rewrite length_app. lia.
    + lia.
    + lia.
    + intros q Hq. rewrite D2, D1; [reflexivity| |].
      * intros ->. apply Hq. left.
      * intros H. apply Hq. now right.
Qed.

(** A whole run, once the model has been loaded and the audit log is
    there. *)
Lemma process_vault_detail (env : Env) (llm : Llama) (w : World) :
  load_model env = Ok llm →
  log_available env w →
  ∃ w' es calls earlier,
    process_vault env w = (Ok tt, w') ∧
    log_file w' = Some (log_lines w ++ es) ∧
    file <$> es = path_name <$> vault_files env ∧
    llm_requests w' = llm_requests w ++ calls ∧
    length calls ≤ classified_lines es ∧
    sleeps w' = sleeps w + classified_lines es ∧
    processed_files w' = updated_lines es ∧
    (∀ q, q ∉ vault_files env → disk w' !! q = disk w !! q) ∧
    console w' = earlier ++
      [ str "- Files processed: " ++ str (pretty (updated_lines es));
        str "- Duration: " ++ duration_text env ++ str " seconds";
        str "- Log file: " ++ LOG_FILE env ].
Proof.
  intros Hmodel Havail. unfold process_vault, initialize_llm. rewrite Hmodel.
  erewrite bind_ok by reflexivity.
  destruct (create_log_file_run env w)
    as (r0 & w0 & Hcreate & L0 & R0 & S0 & D0 & _ & Hcase).
  assert (Hcreated : r0 = Ok tt ∧ log_file w0 = Some (log_lines w)).
  { destruct Havail as [[lines Hl]|Hfault].
    - now rewrite Hl in Hcase.
    - rewrite Hfault in Hcase. now destruct (log_file w). }
  destruct Hcreated as [-> Hlog0]. clear Hcase.
  erewrite bind_ok by exact Hcreate.
  do 2 (erewrite bind_ok by reflexivity).
  match goal with
  | |- context [(for_each ?fs ?b ≫= ?k) ?w1] =>
      destruct (for_each_detail env llm fs w1)
        as (w2 & es & calls & Hrun & _ & L1 & Hf & R1 & Hc & S1 & P1 & D1);
      set (w_start := w1) in *
  end.
  erewrite bind_ok by exact Hrun.
  do 3 (erewrite bind_ok by reflexivity).
  change (llm_requests w_start) with (llm_requests w0) in R1.
  change (sleeps w_start) with (sleeps w0) in S1.
  change (processed_files w_start) with 0 in P1.
  change (disk w_start) with (disk w0) in D1.
  change (log_file w_start) with (log_file w0) in L1.
  change (log_lines w_start) with (log_lines w0) in L1.
  rewrite R0 in R1. rewrite S0 in S1. rewrite D0 in D1.
  assert (Hlog : log_file w2 = Some (log_lines w ++ es)).
  { rewrite L1 by (rewrite Hlog0; eauto). now rewrite L0. }
  eexists _, es, calls, (console w2 ++ [nl ++ str "Processing complete:"]).
  split; [reflexivity|].
  cbn [log_file llm_requests sleeps processed_files disk console
       set_console set_processed_files].
  rewrite P1, Nat.add_0_l.
  repeat split; try assumption.
  now rewrite <- !app_assoc.
Qed.

(** A run that cannot load its model or cannot create its log stops
    there, in the world it started in. *)
Lemma process_vault_aborts (env : Env) (w : World) :
  (∃ e, load_model env = Raise e) ∨
  (log_file w = None ∧ ∃ e, log_create_fault env = Some e) →
  ∃ e, process_vault env w = (Raise e, w).
Proof.
  unfold process_vault, initialize_llm.
  destruct (load_model env) as [llm|e0] eqn:Hmodel.
  - intros [[e He]|[Hlog [e He]]]; [discriminate|].
    erewrite bind_ok by reflexivity. exists e.
    apply bind_raise. unfold create_log_file. now rewrite Hlog, He.
  - intros _. exists e0. now apply bind_raise.
Qed.

Lemma process_vault_disk (env : Env) (w : World) (q : pystr) :
  q ∉ vault_files env → disk (process_vault env w).2 !! q = disk w !! q.
Proof.
  intros Hq.
  destruct (load_model env) as [llm|e0] eqn:Hmodel.
  - destruct (log_file w) as [lines|] eqn:Hlog;
      [|destruct (log_create_fault env) as [e|] eqn:Hfault].
    + destruct (process_vault_detail env llm w Hmodel)
        as (w' & es & calls & earlier & Hrun & _ & _ & _ & _ & _ & _ & D & _);
        [left; rewrite Hlog; eauto|].
      rewrite Hrun. now apply D.
    + destruct (process_vault_aborts env w) as [e' Hrun];
        [right; eauto | now rewrite Hrun].
    + destruct (process_vault_detail env llm w Hmodel)
        as (w' & es & calls & earlier & Hrun & _ & _ & _ & _ & _ & _ & D & _);
        [now right|].
      rewrite Hrun. now apply D.
  - destruct (process_vault_aborts env w) as [e' Hrun];
      [left; eauto | now rewrite Hrun].
Qed.

(** X12. A note is left exactly as it was unless its line in the audit
    log says UPDATED or WRITE_FAILED: skipping, finding no glyph and
    failing with an error never write to any note, and no visit ever
    touches another note than its own. *)
Theorem note_changes_only_when_written (env : Env) (llm : Llama) (p : pystr)
  (w : World) :
  ∃ w' e,
    process_note env llm p w = (Ok tt, w') ∧
    log_file w' = Some (log_lines w ++ [e]) ∧
    (∀ q, q ≠ p → disk w' !! q = disk w !! q) ∧
    (action e = SKIPPED ∨ action e = NO_MATCH ∨ action e = ERROR →
     disk w' = disk w).
Proof.
  destruct (process_note_detail env llm p w)
    as (w' & e & calls & Hrun & L & _ & _ & _ & _ & _ & D & Hsame).
  exists w', e. repeat split; try assumption.
  intros Hact. apply Hsame; intros Ha; rewrite Ha in Hact;
    destruct Hact as [H|[H|H]]; discriminate.
Qed.

(** X13. After a run whose model loads and whose audit log exists or can
    be created, the number the final report prints as "Files processed"
    is the number of UPDATED lines the run appended to the audit log; the
    report closes the console output, and the log exists after the run. *)
Theorem report_counts_updated_lines (env : Env) (llm : Llama) (w : World) :
  load_model env = Ok llm →
  log_available env w →
  ∃ w' es earlier,
    process_vault env w = (Ok tt, w') ∧
    log_file w' = Some (log_lines w ++ es) ∧
    processed_files w' = updated_lines es ∧
    console w' = earlier ++
      [ str "- Files processed: " ++ str (pretty (updated_lines es));
        str "- Duration: " ++ duration_text env ++ str " seconds";
        str "- Log file: " ++ LOG_FILE env ].
Proof.
  intros Hmodel Havail.
  destruct (process_vault_detail env llm w Hmodel Havail)
    as (w' & es & calls & earlier & Hrun & L & _ & _ & _ & _ & P & _ & C).
  now exists w', es, earlier.
Qed.

Lemma report_counts_updated_lines_witness :
  load_model Fixture.env = Ok Fixture.llm ∧
  log_available Fixture.env Fixture.world ∧
  ∃ w' es earlier,
    process_vault Fixture.env Fixture.world = (Ok tt, w') ∧
    log_file w' = Some (log_lines Fixture.world ++ es) ∧
    processed_files w' = updated_lines es ∧
    console w' = earlier ++
      [ str "- Files processed: " ++ str (pretty (updated_lines es));
        str "- Duration: " ++ duration_text Fixture.env ++ str " seconds";
        str "- Log file: " ++ LOG_FILE Fixture.env ].
Proof.
  assert (Havail : log_available Fixture.env Fixture.world) by (right; reflexivity).
  split; [reflexivity|]. split; [exact Havail|].
  exact (report_counts_updated_lines Fixture.env Fixture.llm Fixture.world eq_refl
           Havail).
Defined.

(** X14. In a run whose model loads and whose audit log exists or can be
    created, the fixed delay is paid once for every note that was
    classified (UPDATED, WRITE_FAILED or NO_MATCH) and never for a note
    that was skipped or that failed with an error. *)
Theorem one_sleep_per_classified_note (env : Env) (llm : Llama) (w : World) :
  load_model env = Ok llm →
  log_available env w →
  ∃ w' es,
    process_vault env w = (Ok tt, w') ∧
    log_file w' = Some (log_lines w ++ es) ∧
    sleeps w' = sleeps w + classified_lines es.
Proof.
  intros Hmodel Havail.
  destruct (process_vault_detail env llm w Hmodel Havail)
    as (w' & es & calls & earlier & Hrun & L & _ & _ & _ & S & _).
  now exists w', es.
Qed.

Lemma one_sleep_per_classified_note_witness :
  load_model Fixture.env = Ok Fixture.llm ∧
  log_available Fixture.env Fixture.world_marked ∧
  ∃ w' es,
    process_vault Fixture.env Fixture.world_marked = (Ok tt, w') ∧
    log_file w' = Some (log_lines Fixture.world_marked ++ es) ∧
    sleeps w' = sleeps Fixture.world_marked + classified_lines es.
Proof.
  assert (Havail : log_available Fixture.env Fixture.world_marked)
    by (right; reflexivity).
  split; [reflexivity|]. split; [exact Havail|].
  exact (one_sleep_per_classified_note Fixture.env Fixture.llm Fixture.world_marked
           eq_refl Havail).
Defined.

(** X15. A run whose model loads and whose audit log exists or can be
    created calls the model at most once per classified note, so at most
    once per note visited, and never for a note that is skipped or fails
    with an error; the requests made before the run stay in front of the
    trace. *)
Theorem at_most_one_call_per_note (env : Env) (llm : Llama) (w : World) :
  load_model env = Ok llm →
  log_available env w →
  ∃ w' es calls,
    process_vault env w = (Ok tt, w') ∧
    log_file w' = Some (log_lines w ++ es) ∧
    llm_requests w' = llm_requests w ++ calls ∧
    length calls ≤ classified_lines es ∧
    classified_lines es ≤ length (vault_files env).
Proof.
  intros Hmodel Havail.
  destruct (process_vault_detail env llm w Hmodel Havail)
    as (w' & es & calls & earlier & Hrun & L & Hf & R & Hc & _).
  exists w', es, calls. repeat split; try assumption.
  apply (f_equal length) in Hf. rewrite !length_fmap in Hf. rewrite <- Hf.
  apply updated_lines_le_classified.
Qed.

Lemma at_most_one_call_per_note_witness :
  load_model Fixture.env = Ok Fixture.llm ∧
  log_available Fixture.env Fixture.world ∧
  ∃ w' es calls,
    process_vault Fixture.env Fixture.world = (Ok tt, w') ∧
    log_file w' = Some (log_lines Fixture.world ++ es) ∧
    llm_requests w' = llm_requests Fixture.world ++ calls ∧
    length calls ≤ classified_lines es ∧
    classified_lines es ≤ length (vault_files Fixture.env).
Proof.
  assert (Havail : log_available Fixture.env Fixture.world) by (right; reflexivity).
  split; [reflexivity|]. split; [exact Havail|].
  exact (at_most_one_call_per_note Fixture.env Fixture.llm Fixture.world eq_refl
           Havail).
Defined.

(** X16. Apart from the audit log, a run never changes a file that the
    traversal did not yield, whether the run completes or raises; and a
    run that cannot create its audit log raises at once: it reads and
    writes no note, calls no model, prints nothing and leaves no log. *)
Theorem run_leaves_other_files_alone (env : Env) (w : World) (q : pystr) :
  q ≠ LOG_FILE env →
  q ∉ vault_files env →
  disk (process_vault env w).2 !! q = disk w !! q ∧
  (∀ llm e, load_model env = Ok llm → log_file w = None →
            log_create_fault env = Some e →
            process_vault env w = (Raise e, w)).
Proof.
  intros _ Hq. split; [now apply process_vault_disk|].
  intros llm e Hmodel Hlog Hfault.
  unfold process_vault, initialize_llm. rewrite Hmodel.
  erewrite bind_ok by reflexivity. apply bind_raise.
  unfold create_log_file. now rewrite Hlog, Hfault.
Qed.

Lemma run_leaves_other_files_alone_witness :
  str "vault/attachments/garden.png" ≠ LOG_FILE Scenario.env_read_only ∧
  (str "vault/attachments/garden.png" ∉ vault_files Scenario.env_read_only) ∧
  disk (process_vault Fixture.env Fixture.world).2 !! str "vault/attachments/garden.png"
  = disk Fixture.world !! str "vault/attachments/garden.png" ∧
  process_vault Scenario.env_read_only Fixture.world
  = (Raise (Exn (str "PermissionError") (str "[Errno 13] Permission denied")),
     Fixture.world).
Proof.
  assert (Hlog : str "vault/attachments/garden.png" ≠ LOG_FILE Scenario.env_read_only)
    by (vm_compute; discriminate).
  assert (Hq : str "vault/attachments/garden.png" ∉ vault_files Scenario.env_read_only)
    by (apply (bool_decide_unpack _); vm_compute; exact I).
  split; [exact Hlog|]. split; [exact Hq|]. split.
  - exact (proj1 (run_leaves_other_files_alone Fixture.env Fixture.world _ Hlog Hq)).
  - exact (proj2 (run_leaves_other_files_alone Scenario.env_read_only Fixture.world
                    _ Hlog Hq) Fixture.llm _ eq_refl eq_refl eq_refl).
Defined.

Lemma llm_assign_glyphs_failure (llm : Llama) (text : pystr) (is_personal : bool)
  (w : World) (ex : exn) :
  50 ≤ length text →
  (llm (llm_requests w) (completion_messages text is_personal) ≫= response_text)
    = Raise ex →
  llm_assign_glyphs llm text is_personal w
  = (Ok [], set_console (λ out, out ++ [str "LLM processing error: " ++ exn_msg ex])
              (set_llm_requests
                 (λ past, past ++ [completion_messages text is_personal]) w)).
Proof.
  intros Hlen Hfail. unfold llm_assign_glyphs.
  destruct (length text <? 50) eqn:Hshort; [apply Nat.ltb_lt in Hshort; lia|].
  unfold try_except, mbind, M_bind, create_chat_completion, lift, print, modify.
  unfold mbind, result_bind in Hfail.
  destruct (llm (llm_requests w) (completion_messages text is_personal))
    as [response|e']; simpl.
  - now rewrite Hfail.
  - now injection Hfail as ->.
Qed.

(** X17. A note whose header cannot be parsed is logged as ERROR with the
    class and the message of the exception; the model is not called, no
    note is written, and the loop does not wait before the next note. *)
Theorem unparsable_note_logged_as_error (env : Env) (llm : Llama)
  (p text : pystr) (ex : exn) (w : World) :
  disk w !! p = Some text →
  frontmatter_loads env text = Raise ex →
  ∃ w' e,
    process_note env llm p w = (Ok tt, w') ∧
    log_file w' = Some (log_lines w ++ [e]) ∧
    file e = path_name p ∧ action e = ERROR ∧ glyphs e = [] ∧
    error e = Some (exn_type ex ++ str ": " ++ exn_msg ex) ∧
    llm_requests w' = llm_requests w ∧ disk w' = disk w ∧ sleeps w' = sleeps w.
Proof.
  intros Hdisk Hparse. unfold process_note, process_note_body.
  assert (Hload : frontmatter_load env p w = (Raise ex, w)).
  { unfold frontmatter_load. now rewrite Hdisk, Hparse. }
  rewrite (try_raise _ _ w w ex) by (erewrite bind_raise by exact Hload; reflexivity).
  rewrite (bind_ok _ _ _ _ _ (log_assignment_eq env _ _ _ _ w)).
  eexists _, (entry_at env w (path_name p) ERROR [] _).
  split; [reflexivity|]. now repeat split.
Qed.

Lemma unparsable_note_logged_as_error_witness :
  disk Scenario.world_broken !! Fixture.note_path = Some Scenario.broken_text ∧
  frontmatter_loads Scenario.env Scenario.broken_text = Raise Scenario.scanner_error ∧
  ∃ w' e,
    process_note Scenario.env Fixture.llm Fixture.note_path Scenario.world_broken
      = (Ok tt, w') ∧
    log_file w' = Some (log_lines Scenario.world_broken ++ [e]) ∧
    action e = ERROR ∧
    error e = Some (str "ScannerError: while parsing a flow sequence") ∧
    llm_requests w' = llm_requests Scenario.world_broken ∧
    disk w' = disk Scenario.world_broken.
Proof.
  assert (Hdisk : disk Scenario.world_broken !! Fixture.note_path
                  = Some Scenario.broken_text) by (vm_compute; reflexivity).
  assert (Hparse : frontmatter_loads Scenario.env Scenario.broken_text
                   = Raise Scenario.scanner_error) by (vm_compute; reflexivity).
  split; [exact Hdisk|]. split; [exact Hparse|].
  destruct (unparsable_note_logged_as_error Scenario.env Fixture.llm
              Fixture.note_path _ _ Scenario.world_broken Hdisk Hparse)
    as (w' & e & Hrun & L & _ & Ha & _ & Herr & R & D & _).
  exists w', e. repeat split; try assumption.
Defined.

(** X18. When the [tags] key holds [None], a boolean or a number, Python
    cannot search it: the note is logged as ERROR with a [TypeError],
    without any call of the model and without any write. *)
Theorem unsearchable_tags_logged_as_error (env : Env) (llm : Llama)
  (p text : pystr) (post : Post) (tags : value) (w : World) :
  disk w !! p = Some text →
  frontmatter_loads env text = Ok post →
  dict_contains (str "glyphstream") (metadata post) = false →
  dict_get (str "tags") (metadata post) = Some tags →
  unsearchable tags = true →
  ∃ w' e,
    process_note env llm p w = (Ok tt, w') ∧
    log_file w' = Some (log_lines w ++ [e]) ∧
    file e = path_name p ∧ action e = ERROR ∧ glyphs e = [] ∧
    error e = Some (str "TypeError: argument of type " ++ quoted (type_name tags)
                    ++ str " is not iterable") ∧
    llm_requests w' = llm_requests w ∧ disk w' = disk w.
Proof.
  intros Hdisk Hparse Hkey Htags Hscalar. unfold process_note, process_note_body.
  set (w1 := set_console (λ out, out ++ [str "Analyzing: " ++ path_name p]) w).
  set (ex := TypeError (str "argument of type " ++ quoted (type_name tags)
                        ++ str " is not iterable")).
  assert (Hkind : stream_is_personal post = Raise ex).
  { unfold stream_is_personal, tags_of. rewrite Htags. simpl.
    now destruct tags. }
  rewrite (try_raise _ _ w w1 ex).
  2: { erewrite bind_ok by (eapply frontmatter_load_ok; eauto). rewrite Hkey.
       erewrite bind_ok by reflexivity. rewrite Hkind.
       now erewrite bind_raise by reflexivity. }
  rewrite (bind_ok _ _ _ _ _ (log_assignment_eq env _ _ _ _ w1)).
  eexists _, (entry_at env w1 (path_name p) ERROR [] _).
  split; [reflexivity|]. now repeat split.
Qed.

Lemma unsearchable_tags_logged_as_error_witness :
  disk Scenario.world_null_tags !! Fixture.note_path = Some (str "tags: null") ∧
  frontmatter_loads Scenario.env (str "tags: null")
    = Ok {| metadata := [(str "tags", VNone)]; post_content := Fixture.long_body |} ∧
  ∃ w' e,
    process_note Scenario.env Fixture.llm Fixture.note_path Scenario.world_null_tags
      = (Ok tt, w') ∧
    action e = ERROR ∧
    error e = Some (str "TypeError: argument of type 'NoneType' is not iterable") ∧
    log_file w' = Some (log_lines Scenario.world_null_tags ++ [e]) ∧
    llm_requests w' = llm_requests Scenario.world_null_tags ∧
    disk w' = disk Scenario.world_null_tags.
Proof.
  assert (Hdisk : disk Scenario.world_null_tags !! Fixture.note_path
                  = Some (str "tags: null")) by (vm_compute; reflexivity).
  assert (Hparse : frontmatter_loads Scenario.env (str "tags: null")
                   = Ok {| metadata := [(str "tags", VNone)];
                           post_content := Fixture.long_body |})
    by (vm_compute; reflexivity).
  split; [exact Hdisk|]. split; [exact Hparse|].
  destruct (unsearchable_tags_logged_as_error Scenario.env Fixture.llm
              Fixture.note_path _ _ VNone Scenario.world_null_tags Hdisk Hparse
              eq_refl eq_refl eq_refl)
    as (w' & e & Hrun & L & _ & Ha & _ & Herr & R & D).
  exists w', e. repeat split; try assumption.
Defined.

(** X19. A failure of the model on a note that is long enough ends in the
    audit log as NO_MATCH with no glyph and no error text, exactly like a
    model that answered with no valid glyph; the model was called once,
    the note is not written, and the loop waits before the next note. *)
Theorem model_failure_logged_as_no_match (env : Env) (llm : Llama)
  (p text : pystr) (post : Post) (is_personal : bool) (ex : exn) (w : World) :
  disk w !! p = Some text →
  frontmatter_loads env text = Ok post →
  dict_contains (str "glyphstream") (metadata post) = false →
  stream_is_personal post = Ok is_personal →
  50 ≤ length (post_content post) →
  (llm (llm_requests w) (completion_messages (post_content post) is_personal)
     ≫= response_text) = Raise ex →
  ∃ w' e,
    process_note env llm p w = (Ok tt, w') ∧
    log_file w' = Some (log_lines w ++ [e]) ∧
    file e = path_name p ∧ action e = NO_MATCH ∧ glyphs e = [] ∧ error e = None ∧
    llm_requests w'
      = llm_requests w ++ [completion_messages (post_content post) is_personal] ∧
    disk w' = disk w ∧ sleeps w' = S (sleeps w).
Proof.
  intros Hdisk Hparse Hkey Hkind Hlen Hfail. unfold process_note, process_note_body.
  set (w1 := set_console (λ out, out ++ [str "Analyzing: " ++ path_name p]) w).
  pose proof (llm_assign_glyphs_failure llm (post_content post) is_personal w1 ex
                Hlen Hfail) as Hassign.
  set (w2 := set_console _ (set_llm_requests _ w1)) in Hassign.
  rewrite (try_ok _ _ w (set_sleeps S (with_line
             (entry_at env w2 (path_name p) NO_MATCH [] None) w2)) tt).
  2: { erewrite bind_ok by (eapply frontmatter_load_ok; eauto). rewrite Hkey.
       erewrite bind_ok by reflexivity. rewrite Hkind.
       erewrite bind_ok by reflexivity. erewrite bind_ok by exact Hassign.
       cbv beta iota.
       now rewrite (bind_ok _ _ _ _ _ (log_assignment_eq env _ _ _ _ w2)). }
  eexists _, (entry_at env w2 (path_name p) NO_MATCH [] None).
  split; [reflexivity|]. now repeat split.
Qed.

Lemma model_failure_logged_as_no_match_witness :
  disk Fixture.world !! Fixture.note_path = Some Fixture.long_body ∧
  50 ≤ length Fixture.long_body ∧
  ∃ w' e,
    process_note Fixture.env Fixture.llm_timing_out Fixture.note_path Fixture.world
      = (Ok tt, w') ∧
    log_file w' = Some (log_lines Fixture.world ++ [e]) ∧
    action e = NO_MATCH ∧ error e = None ∧
    disk w' = disk Fixture.world ∧ sleeps w' = S (sleeps Fixture.world).
Proof.
  assert (Hdisk : disk Fixture.world !! Fixture.note_path = Some Fixture.long_body)
    by (vm_compute; reflexivity).
  assert (Hlen : 50 ≤ length Fixture.long_body) by (vm_compute; lia).
  split; [exact Hdisk|]. split; [exact Hlen|].
  destruct (model_failure_logged_as_no_match Fixture.env Fixture.llm_timing_out
              Fixture.note_path Fixture.long_body Fixture.post true
              (Exn (str "TimeoutError") (str "model did not answer")) Fixture.world
              Hdisk eq_refl eq_refl eq_refl Hlen eq_refl)
    as (w' & e & Hrun & L & _ & Ha & _ & Herr & _ & D & S').
  exists w', e. repeat split; try assumption.
Defined.

Lemma update_note_success (env : Env) (p : pystr) (post : Post) (is_personal : bool)
  (gs : list pystr) (gm md : list (pystr * value)) (w w2 : World) :
  build_glyph_metadata gs [] = Ok gm →
  md = enriched_metadata post is_personal gs gm (now_isoformat env (clock_reads w)) →
  write_obsidian_file env p md (post_content post) (set_clock_reads S w)
    = (Ok true, w2) →
  ∃ safe e,
    e = entry_at env w2 (path_name p) UPDATED gs None ∧
    update_note env p post is_personal gs w
    = (Ok tt, set_processed_files S
                (set_console
                   (λ out, out ++ [[0x20; 0x20; 0xE2; 0x153; 0x2026]%N
                                   ++ str " Assigned: " ++ py_join (str ", ") gs])
                   (with_line e w2))) ∧
    prepare_metadata env md [] = Ok safe ∧
    disk w2 !! p = Some (new_text env safe (post_content post)) ∧
    writer_frame p (set_clock_reads S w) w2.
Proof.
  intros Hbuild -> Hwrite.
  set (md := enriched_metadata _ _ _ _ _) in *.
  destruct (write_obsidian_file_detail env p md (post_content post)
              (set_clock_reads S w))
    as (written & w2' & Hrun & Hframe & Htrue & _).
  rewrite Hwrite in Hrun. injection Hrun as <- <-.
  destruct (Htrue eq_refl) as (safe & Hprep & Hdisk).
  exists safe, (entry_at env w2 (path_name p) UPDATED gs None).
  split; [reflexivity|]. split; [|split; [exact Hprep|split; [exact Hdisk|]]].
  - unfold update_note. rewrite Hbuild. erewrite bind_ok by reflexivity.
    erewrite bind_ok by reflexivity. fold md. erewrite bind_ok by exact Hwrite.
    cbv beta iota.
    rewrite (bind_ok _ _ _ _ _ (log_assignment_eq env _ _ _ _ w2)).
    now erewrite bind_ok by reflexivity.
  - exact Hframe.
Qed.

(** X20. When the writer reports success for an assignment, one UPDATED
    line with the glyph list is appended to the audit log, the counter of
    processed files goes up by one, and the note holds the new header and
    its trimmed body; the model trace and the other notes are as they
    were. *)
Theorem successful_update_logged_and_counted (env : Env) (p : pystr) (post : Post)
  (is_personal : bool) (gs : list pystr) (gm md : list (pystr * value))
  (w w2 : World) :
  build_glyph_metadata gs [] = Ok gm →
  md = enriched_metadata post is_personal gs gm (now_isoformat env (clock_reads w)) →
  write_obsidian_file env p md (post_content post) (set_clock_reads S w)
    = (Ok true, w2) →
  ∃ w' e safe,
    update_note env p post is_personal gs w = (Ok tt, w') ∧
    log_file w' = Some (log_lines w ++ [e]) ∧
    file e = path_name p ∧ action e = UPDATED ∧ glyphs e = gs ∧ error e = None ∧
    processed_files w' = S (processed_files w) ∧
    prepare_metadata env md [] = Ok safe ∧
    disk w' !! p = Some (new_text env safe (post_content post)) ∧
    (∀ q, q ≠ p → disk w' !! q = disk w !! q) ∧
    llm_requests w' = llm_requests w.
Proof.
  intros Hbuild Hmd Hwrite.
  destruct (update_note_success env p post is_personal gs gm md w w2
              Hbuild Hmd Hwrite)
    as (safe & e & -> & Hrun & Hprep & Hdisk & [L R P S' C D]).
  simpl in L, R, P, D.
  eexists _, _, safe. split; [exact Hrun|]. simpl.
  unfold log_lines. rewrite L, P, R.
  repeat split; try assumption; try reflexivity.
Qed.

Lemma successful_update_logged_and_counted_witness :
  build_glyph_metadata Fixture.assigned [] = Ok Fixture.assigned_metadata ∧
  (write_obsidian_file Fixture.env Fixture.note_path Scenario.updated_metadata
     Fixture.long_body (set_clock_reads S Fixture.world)).1 = Ok true ∧
  ∃ w' e,
    update_note Fixture.env Fixture.note_path Fixture.post true Fixture.assigned
      Fixture.world = (Ok tt, w') ∧
    log_file w' = Some (log_lines Fixture.world ++ [e]) ∧
    action e = UPDATED ∧ glyphs e = Fixture.assigned ∧
    processed_files w' = S (processed_files Fixture.world) ∧
    disk w' !! Fixture.note_path = Some Scenario.updated_text.
Proof.
  assert (Hbuild : build_glyph_metadata Fixture.assigned []
                   = Ok Fixture.assigned_metadata) by (vm_compute; reflexivity).
  set (run := write_obsidian_file Fixture.env Fixture.note_path
                Scenario.updated_metadata Fixture.long_body
                (set_clock_reads S Fixture.world)).
  assert (Hwrite : run = (Ok true, run.2)) by (vm_compute; reflexivity).
  split; [exact Hbuild|]. split; [now rewrite Hwrite|].
  destruct (successful_update_logged_and_counted Fixture.env Fixture.note_path
              Fixture.post true Fixture.assigned Fixture.assigned_metadata
              Scenario.updated_metadata Fixture.world run.2 Hbuild eq_refl Hwrite)
    as (w' & e & safe & Hrun & L & _ & Ha & Hg & _ & P & Hprep & Hdisk & _).
  exists w', e. repeat split; try assumption.
  rewrite Hdisk. f_equal.
  assert (Hsafe : prepare_metadata Fixture.env Scenario.updated_metadata []
                  = Ok Scenario.updated_metadata) by (vm_compute; reflexivity).
  rewrite Hsafe in Hprep. now injection Hprep as <-.
Defined.

Lemma dict_contains_set {V} (k k' : pystr) (v : V) (d : list (pystr * V)) :
  dict_contains k' (dict_set k v d) = bool_decide (k' = k) || dict_contains k' d.
Proof.
  unfold dict_contains. case_bool_decide as Hk.
  - subst. now rewrite dict_get_set_eq.
  - rewrite dict_get_set_ne by congruence. reflexivity.
Qed.

Lemma prepare_metadata_keeps_keys (env : Env) (md acc safe : list (pystr * value))
  (k : pystr) :
  prepare_metadata env md acc = Ok safe →
  dict_contains k acc = true ∨ dict_contains k md = true →
  dict_contains k safe = true.
Proof.
  revert acc. induction md as [|[key v] md IH]; intros acc Hrun Hk.
  - injection Hrun as <-. destruct Hk as [Hk|Hk]; [exact Hk | discriminate].
  - cbn [prepare_metadata] in Hrun.
    assert (Hstep : ∃ v', prepare_metadata env md (dict_set key v' acc) = Ok safe).
    { destruct (is_plain v); [now exists v|].
      destruct (yaml_roundtrip env v) as [v'|e]; [now exists v' | discriminate]. }
    destruct Hstep as [v' Hstep]. apply (IH _ Hstep).
    rewrite dict_contains_set.
    destruct Hk as [Hk|Hk]; [left; rewrite Hk; apply orb_true_r|].
    unfold dict_contains in Hk. simpl in Hk.
    case_bool_decide as Heq; [now left | now right].
Qed.

Lemma process_note_skip (env : Env) (llm : Llama) (p text : pystr) (post : Post)
  (w : World) :
  disk w !! p = Some text →
  frontmatter_loads env text = Ok post →
  dict_contains (str "glyphstream") (metadata post) = true →
  process_note env llm p w
  = (Ok tt, with_line (entry_at env w (path_name p) SKIPPED [] None) w).
Proof.
  intros Hdisk Hparse Hkey. unfold process_note, process_note_body. apply try_ok.
  erewrite bind_ok by (eapply frontmatter_load_ok; eauto).
  rewrite Hkey. apply log_assignment_eq.
Qed.

(** X21. A run is idempotent on the notes it updates, as long as the
    parser reads back the metadata that was dumped: the next visit of a
    note that was just updated finds the [glyphstream] key, logs SKIPPED,
    and neither calls the model nor writes the note again. *)
Theorem updated_note_skipped_on_next_visit (env : Env) (llm : Llama) (p : pystr)
  (post post' : Post) (is_personal : bool) (gs : list pystr)
  (gm md safe : list (pystr * value)) (w w2 : World) :
  build_glyph_metadata gs [] = Ok gm →
  md = enriched_metadata post is_personal gs gm (now_isoformat env (clock_reads w)) →
  write_obsidian_file env p md (post_content post) (set_clock_reads S w)
    = (Ok true, w2) →
  prepare_metadata env md [] = Ok safe →
  frontmatter_loads env (new_text env safe (post_content post)) = Ok post' →
  metadata post' = safe →
  ∃ w' w'' e e',
    update_note env p post is_personal gs w = (Ok tt, w') ∧
    process_note env llm p w' = (Ok tt, w'') ∧
    log_file w'' = Some (log_lines w ++ [e; e']) ∧
    action e = UPDATED ∧ action e' = SKIPPED ∧
    disk w'' = disk w' ∧
    llm_requests w'' = llm_requests w.
Proof.
  intros Hbuild Hmd Hwrite Hprep Hparse Hmeta.
  destruct (update_note_success env p post is_personal gs gm md w w2
              Hbuild Hmd Hwrite)
    as (safe' & e & He & Hrun & Hprep' & Hdisk & [L R _ _ _ _]).
  rewrite Hprep in Hprep'. injection Hprep' as <-.
  simpl in L, R.
  assert (Hkey : dict_contains (str "glyphstream") (metadata post') = true).
  { rewrite Hmeta. apply (prepare_metadata_keeps_keys env md [] safe _ Hprep).
    right. subst md. unfold enriched_metadata, dict_update. cbn [fold_left fst snd].
    rewrite !dict_contains_set. simpl. reflexivity. }
  match type of Hrun with _ = (_, ?w1) => set (w' := w1) in * end.
  assert (Hdisk' : disk w' !! p = Some (new_text env safe (post_content post)))
    by exact Hdisk.
  pose proof (process_note_skip env llm p _ post' w' Hdisk' Hparse Hkey) as Hskip.
  eexists w', _, e, (entry_at env w' (path_name p) SKIPPED [] None).
  split; [exact Hrun|]. split; [exact Hskip|].
  subst e. simpl. unfold log_lines. rewrite L, R. simpl.
  rewrite <- app_assoc. now repeat split.
Qed.

Lemma updated_note_skipped_on_next_visit_witness :
  build_glyph_metadata Fixture.assigned [] = Ok Fixture.assigned_metadata ∧
  prepare_metadata Scenario.env_reading_back Scenario.updated_metadata []
    = Ok Scenario.updated_metadata ∧
  frontmatter_loads Scenario.env_reading_back Scenario.updated_text
    = Ok {| metadata := Scenario.updated_metadata;
            post_content := Fixture.long_body |} ∧
  ∃ w' w'' e e',
    update_note Scenario.env_reading_back Fixture.note_path Fixture.post true
      Fixture.assigned Fixture.world = (Ok tt, w') ∧
    process_note Scenario.env_reading_back Fixture.llm Fixture.note_path w'
      = (Ok tt, w'') ∧
    log_file w'' = Some (log_lines Fixture.world ++ [e; e']) ∧
    action e = UPDATED ∧ action e' = SKIPPED ∧
    disk w'' = disk w' ∧
    llm_requests w'' = llm_requests Fixture.world.
Proof.
  assert (Hbuild : build_glyph_metadata Fixture.assigned []
                   = Ok Fixture.assigned_metadata) by (vm_compute; reflexivity).
  assert (Hprep : prepare_metadata Scenario.env_reading_back
                    Scenario.updated_metadata [] = Ok Scenario.updated_metadata)
    by (vm_compute; reflexivity).
  assert (Hparse : frontmatter_loads Scenario.env_reading_back Scenario.updated_text
                   = Ok {| metadata := Scenario.updated_metadata;
                           post_content := Fixture.long_body |})
    by (vm_compute; reflexivity).
  set (run := write_obsidian_file Scenario.env_reading_back Fixture.note_path
                Scenario.updated_metadata Fixture.long_body
                (set_clock_reads S Fixture.world)).
  assert (Hwrite : run = (Ok true, run.2)) by (vm_compute; reflexivity).
  split; [exact Hbuild|]. split; [exact Hprep|]. split; [exact Hparse|].
  exact (updated_note_skipped_on_next_visit Scenario.env_reading_back Fixture.llm
           Fixture.note_path Fixture.post _ true Fixture.assigned
           Fixture.assigned_metadata Scenario.updated_metadata
           Scenario.updated_metadata Fixture.world run.2
           Hbuild eq_refl Hwrite Hprep Hparse eq_refl).
Defined.

(* ====================================================================== *)
(** * The prompt and the stream kind                                       *)
(* ====================================================================== *)

(** X22. The prompt is the same for both stream kinds.  It describes
    every glyph of the lexicon by its symbol, its name and its meanings,
    marks each permission-gated glyph with [REQUIRES PERMISSION], and its
    rules name every permission-gated symbol of the lexicon. *)
Theorem prompt_describes_every_glyph (is_personal : bool) :
  generate_glyph_prompt is_personal = generate_glyph_prompt (negb is_personal) ∧
  Forall (λ entry : pystr * GlyphData,
            let description :=
              entry.1 ++ str " (" ++ name entry.2 ++ str "): "
              ++ py_join (str ", ") (meanings entry.2) in
            py_str_contains (generate_glyph_prompt is_personal)
              (if requires_permission entry.2
               then description ++ str " [REQUIRES PERMISSION]"
               else description) = true)
         GLYPH_LEXICON ∧
  Forall (λ g, py_str_contains rules g = true) permission_glyphs.
Proof.
  split; [reflexivity|].
  change (generate_glyph_prompt is_personal) with (generate_glyph_prompt true).
  split; apply (bool_decide_unpack _); vm_compute; exact I.
Qed.

(** X23. When the [tags] key holds a list, the note is shared exactly when
    the string [shared_experience] itself is an element of the list: an
    element that merely contains it does not count.  When it holds a
    dictionary, the note is shared exactly when [shared_experience] is one
    of its keys. *)
Theorem stream_kind_from_tag_list (post : Post) :
  (∀ items, dict_get (str "tags") (metadata post) = Some (VList items) →
     ∃ is_personal,
       stream_is_personal post = Ok is_personal ∧
       (is_personal = false ↔ VStr (str "shared_experience") ∈ items)) ∧
  (∀ items, dict_get (str "tags") (metadata post) = Some (VDict items) →
     ∃ is_personal,
       stream_is_personal post = Ok is_personal ∧
       (is_personal = false ↔ str "shared_experience" ∈ items.*1)) ∧
  (∀ body, stream_is_personal
             {| metadata := [(str "tags", VList [VStr (str "my_shared_experiences")])];
                post_content := body |} = Ok true).
Proof.
  split; [|split].
  - intros items Htags. unfold stream_is_personal, tags_of. rewrite Htags. simpl.
    eexists. split; [reflexivity|]. rewrite negb_false_iff, existsb_exists.
    split.
    + intros (v & Hin & Hv). apply list_elem_of_In in Hin.
      destruct v; try discriminate. apply bool_decide_eq_true in Hv. now subst.
    + intros Hin. exists (VStr (str "shared_experience")).
      split; [now apply list_elem_of_In | now apply bool_decide_eq_true].
  - intros items Htags. unfold stream_is_personal, tags_of. rewrite Htags. simpl.
    eexists. split; [reflexivity|]. rewrite negb_false_iff.
    apply dict_get_elem_of.
  - intros body. vm_compute. reflexivity.
Qed.

Lemma stream_kind_from_tag_list_witness :
  let post := {| metadata := [(str "tags", VList [VStr (str "travel");
                                                  VStr (str "shared_experience")])];
                 post_content := Fixture.long_body |} in
  dict_get (str "tags") (metadata post)
    = Some (VList [VStr (str "travel"); VStr (str "shared_experience")]) ∧
  stream_is_personal post = Ok false.
Proof.
  cbv zeta. split; [vm_compute; reflexivity|].
  destruct (proj1 (stream_kind_from_tag_list
                     {| metadata := [(str "tags",
                                      VList [VStr (str "travel");
                                             VStr (str "shared_experience")])];
                        post_content := Fixture.long_body |})
              _ eq_refl)
    as (is_personal & Hrun & Hiff).
  rewrite Hrun. f_equal. apply Hiff. right. left.
Defined.


(* ====================================================================== *)
(** * Trimming, filtering, truncating                                      *)
(* ====================================================================== *)

Lemma py_lstrip_split (s : pystr) :
  ∃ front, is_blank front = true ∧ s = front ++ py_lstrip s ∧
           match py_lstrip s with [] => True | c :: _ => py_isspace c = false end.
Proof.
  induction s as [|c s (front & Hblank & Hs & Hhead)].
  - now exists [].
  - simpl. destruct (py_isspace c) eqn:Hc.
    + exists (c :: front). unfold is_blank in *. simpl. rewrite Hc, Hblank.
      split; [reflexivity|]. split; [now rewrite <- Hs | exact Hhead].
    + exists []. now repeat split.
Qed.

Lemma py_rstrip_split (s : pystr) :
  ∃ back, is_blank back = true ∧ s = py_rstrip s ++ back ∧
          match rev (py_rstrip s) with
          | [] => True
          | c :: _ => py_isspace c = false
          end.
Proof.
  destruct (py_lstrip_split (rev s)) as (front & Hblank & Hs & Hhead).
  exists (rev front). unfold py_rstrip. rewrite rev_involutive, is_blank_rev.
  split; [exact Hblank|]. split; [|exact Hhead].
  rewrite <- rev_app_distr, <- Hs. now rewrite rev_involutive.
Qed.

(** [str.strip] does trim. *)
Lemma py_strip_trimmed (s : pystr) : trimmed_of s (py_strip s).
Proof.
  unfold py_strip.
  destruct (py_lstrip_split s) as (front & Hfront & Hs & Hhead).
  destruct (py_rstrip_split (py_lstrip s)) as (back & Hback & Hu & Hlast).
  exists front, back. split; [exact Hfront|]. split; [exact Hback|].
  split; [now rewrite <- Hu|]. split; [|exact Hlast].
  destruct (py_rstrip (py_lstrip s)) as [|c t] eqn:Ht; [exact I|].
  rewrite Hu in Hhead. exact Hhead.
Qed.

(** There is one way to trim. *)
Lemma trimmed_of_unique (s t : pystr) : trimmed_of s t → t = py_strip s.
Proof.
  intros (front & back & Hfront & Hback & -> & Hhead & Hlast).
  rewrite (py_strip_pads t (front ++ t ++ back)) by (exists front, back; auto).
  unfold py_strip, py_rstrip.
  assert (Hl : py_lstrip t = t).
  { destruct t as [|c t]; [reflexivity|]. simpl. now rewrite Hhead. }
  rewrite Hl.
  assert (Hr : py_lstrip (rev t) = rev t).
  { destruct (rev t) as [|c u]; [reflexivity|]. simpl. now rewrite Hlast. }
  now rewrite Hr, rev_involutive.
Qed.

Lemma existsb_is_permission_glyph (gs : list pystr) :
  existsb is_permission_glyph gs
  = bool_decide (Exists (λ g, g ∈ permission_glyphs) gs).
Proof.
  induction gs as [|g gs IH]; [reflexivity|]. simpl. rewrite IH.
  unfold is_permission_glyph.
  destruct (bool_decide (g ∈ permission_glyphs)) eqn:Hg; simpl.
  - apply bool_decide_eq_true in Hg. symmetry. apply bool_decide_eq_true.
    now left.
  - apply bool_decide_eq_false in Hg.
    case_bool_decide as Hrest.
    + symmetry. apply bool_decide_eq_true. now right.
    + symmetry. apply bool_decide_eq_false. intros H.
      apply Exists_cons in H as [H|H]; contradiction.
Qed.

(** C3, refuted as worded.  For a shared stream the result is not always
    the first seven of the kept tokens: a single valid token that needs
    no permission is kept by the filter, and the stream is empty. *)
Lemma shared_stream_is_not_plain_truncation :
  filter (λ g, g ∈ GLYPH_LEXICON.*1) [glyph_paradox] = [glyph_paradox] ∧
  validate_glyphstream [glyph_paradox] false = [] ∧
  validate_glyphstream [glyph_paradox] false
  ≠ take 7 (filter (λ g, g ∈ GLYPH_LEXICON.*1) [glyph_paradox]).
Proof.
  assert (Hkept : filter (λ g, g ∈ GLYPH_LEXICON.*1) [glyph_paradox] = [glyph_paradox])
    by (vm_compute; reflexivity).
  assert (Hrun : validate_glyphstream [glyph_paradox] false = [])
    by (vm_compute; reflexivity).
  split; [exact Hkept|]. split; [exact Hrun|].
  rewrite Hkept, Hrun. discriminate.
Qed.

(** C3, amended.  The validator trims every token: it takes the whitespace
    off both ends.  It keeps exactly the trimmed tokens that are symbols
    of the lexicon, in the order they appeared and with their repetitions.
    For a personal stream it returns the first 3 of the kept tokens; for a
    shared stream it returns the first 7 of them when one of the kept
    tokens is permission-gated, and the empty stream otherwise.  Hence the
    result never has more than 3 (personal) or 7 (shared) symbols, and each
    of them is a symbol of the lexicon. *)
Theorem validate_glyphstream_trims_filters_truncates
  (glyphs : list pystr) (is_personal : bool) :
  ∃ trimmed,
    Forall2 trimmed_of glyphs trimmed ∧
    let kept := filter (λ g, g ∈ GLYPH_LEXICON.*1) trimmed in
    validate_glyphstream glyphs true = take 3 kept ∧
    validate_glyphstream glyphs false =
      (if bool_decide (Exists (λ g, g ∈ permission_glyphs) kept)
       then take 7 kept else []) ∧
    length (validate_glyphstream glyphs is_personal)
      ≤ (if is_personal then 3 else 7) ∧
    (∀ g, g ∈ validate_glyphstream glyphs is_personal → g ∈ GLYPH_LEXICON.*1).
Proof.
  exists (py_strip <$> glyphs). split.
  - induction glyphs as [|g glyphs IH]; constructor;
      [apply py_strip_trimmed | exact IH].
  - cbv zeta. rewrite <- valid_glyphs_filter, <- existsb_is_permission_glyph.
    split; [reflexivity|]. split; [|split].
    + unfold validate_glyphstream. simpl.
      now destruct (existsb is_permission_glyph (valid_glyphs glyphs)).
    + pose proof (validate_glyphstream_length glyphs is_personal) as Hlen.
      unfold max_glyphs in Hlen. exact Hlen.
    + intros g Hg.
      eapply valid_glyphs_in_lexicon, validate_glyphstream_sublist, Hg.
Qed.


(* ====================================================================== *)
(** * Short notes                                                          *)
(* ====================================================================== *)

(** C6, refuted as worded.  A note of nine characters whose header says
    [tags: null] is not logged as NO_MATCH: searching [None] raises, and
    the note is logged as ERROR. *)
Lemma short_note_with_null_tags_is_error :
  length Fixture.short_body < 50 ∧
  disk Scenario.world_short_null !! Fixture.note_path = Some Scenario.short_null_text ∧
  frontmatter_loads Scenario.env_short Scenario.short_null_text
  = Ok {| metadata := [(str "tags", VNone)]; post_content := Fixture.short_body |} ∧
  action <$> log_lines (process_note Scenario.env_short Fixture.llm Fixture.note_path
                          Scenario.world_short_null).2 = [ERROR].
Proof.
  split; [vm_compute; lia|]. repeat split; vm_compute; reflexivity.
Qed.

(** C6, amended.  For a body of fewer than 50 characters the glyph assigner
    returns the empty stream at once, in the world it was called in, so
    without a completion call.  A note with such a body is never sent to
    the model and never written, and its one line in the audit log has an
    empty glyph list; its action is NO_MATCH when the note is classified
    (no [glyphstream] key, and a [tags] value that can be searched or no
    such key), SKIPPED when the note already has a [glyphstream] key, and
    ERROR when searching the [tags] value raises. *)
Theorem short_note_no_model_call (body : pystr) :
  length body < 50 →
  (∀ llm is_personal w, llm_assign_glyphs llm body is_personal w = (Ok [], w)) ∧
  (∀ env llm p text post w,
     disk w !! p = Some text →
     frontmatter_loads env text = Ok post →
     post_content post = body →
     ∃ w' e,
       process_note env llm p w = (Ok tt, w') ∧
       llm_requests w' = llm_requests w ∧
       disk w' = disk w ∧
       log_file w' = Some (log_lines w ++ [e]) ∧
       file e = path_name p ∧ glyphs e = [] ∧
       action e = (if dict_contains (str "glyphstream") (metadata post) then SKIPPED
                   else match stream_is_personal post with
                        | Ok _ => NO_MATCH
                        | Raise _ => ERROR
                        end)).
Proof.
  intros Hshort.
  assert (Hassign : ∀ llm is_personal w,
             llm_assign_glyphs llm body is_personal w = (Ok [], w)).
  { intros llm is_personal w. unfold llm_assign_glyphs.
    now rewrite (proj2 (Nat.ltb_lt _ _) Hshort). }
  split; [exact Hassign|].
  intros env llm p text post w Hdisk Hload Hbody.
  destruct (dict_contains (str "glyphstream") (metadata post)) eqn:Hkey.
  { rewrite (process_note_skip env llm p text post w Hdisk Hload Hkey).
    eexists _, (entry_at env w (path_name p) SKIPPED [] None).
    split; [reflexivity|]. now repeat split. }
  set (w1 := set_console (λ out, out ++ [str "Analyzing: " ++ path_name p]) w).
  unfold process_note, process_note_body.
  destruct (stream_is_personal post) as [is_personal|ex] eqn:Hkind.
  - rewrite (try_ok _ _ w (set_sleeps S (with_line
               (entry_at env w1 (path_name p) NO_MATCH [] None) w1)) tt).
    2: { erewrite bind_ok by (eapply frontmatter_load_ok; eauto). rewrite Hkey.
         erewrite bind_ok by reflexivity. rewrite Hkind.
         erewrite bind_ok by reflexivity.
         rewrite Hbody. erewrite bind_ok by apply Hassign.
         cbv beta iota.
         now rewrite (bind_ok _ _ _ _ _ (log_assignment_eq env _ _ _ _ w1)). }
    eexists _, (entry_at env w1 (path_name p) NO_MATCH [] None).
    split; [reflexivity|]. now repeat split.
  - rewrite (try_raise _ _ w w1 ex).
    2: { erewrite bind_ok by (eapply frontmatter_load_ok; eauto). rewrite Hkey.
         erewrite bind_ok by reflexivity. rewrite Hkind.
         now erewrite bind_raise by reflexivity. }
    rewrite (bind_ok _ _ _ _ _ (log_assignment_eq env _ _ _ _ w1)).
    eexists _, (entry_at env w1 (path_name p) ERROR [] _).
    split; [reflexivity|]. now repeat split.
Qed.

Lemma short_note_no_model_call_witness :
  length Fixture.short_body < 50 ∧
  llm_assign_glyphs Fixture.llm Fixture.short_body true Fixture.world
    = (Ok [], Fixture.world) ∧
  ∃ w' e,
    process_note Fixture.env Fixture.llm Fixture.other_path Fixture.world = (Ok tt, w') ∧
    llm_requests w' = llm_requests Fixture.world ∧
    disk w' = disk Fixture.world ∧
    action e = NO_MATCH ∧
    log_file w' = Some (log_lines Fixture.world ++ [e]).
Proof.
  assert (Hshort : length Fixture.short_body < 50) by (vm_compute; lia).
  destruct (short_note_no_model_call Fixture.short_body Hshort) as [Hassign Hnote].
  split; [exact Hshort|]. split; [apply Hassign|].
  destruct (Hnote Fixture.env Fixture.llm Fixture.other_path Fixture.short_body
              {| metadata := []; post_content := Fixture.short_body |}
              Fixture.world)
    as (w' & e & Hrun & Hreq & Hd & Hlog & _ & _ & Ha);
    try (vm_compute; reflexivity).
  exists w', e. now repeat split.
Defined.
